(** * rclpy handles: reference-counted wrappers with dependency edges

    A shallow embedding of [_rclpy_handle.c] and of the record declared in
    [rclpy_handle.h].  The C heap is a finite map from addresses to blocks,
    [size_t] fields are integers reduced modulo [2^64], and the three
    functions of the core ([_rclpy_create_handle],
    [_rclpy_handle_add_dependency], [_rclpy_handle_dec_ref]) are state
    transformers that may fault (undefined behaviour, failed [assert]) or,
    for the recursive one, run out of fuel.  Every [assert] is taken as
    compiled in (a build without [NDEBUG]).  The capsule functions and the
    Python entry points of the file sit on top, over the CPython calls
    they make; reference counts of Python objects are not represented. *)

From Stdlib Require Import ZArith List Lia Bool.
From stdpp Require Import base option list gmap fin_maps strings.

Local Open Scope Z_scope.

(** ** Machine data *)

Definition addr := Z.
Definition NULL : addr := 0.

(** [size_t] on the LP64 targets rclpy is built for. *)
Definition SIZE_WIDTH : Z := 64.
Definition SIZE_MAX : Z := 2 ^ SIZE_WIDTH - 1.
Definition size_wrap (z : Z) : Z := z mod 2 ^ SIZE_WIDTH.

(** The size of one handle pointer, the element size of [dependencies]. *)
Definition sizeof_ptr : Z := 8.

(** [struct rclpy_handle_t] *)
Record rclpy_handle_t := mk_handle {
  ptr : addr;
  ref_count : Z;
  dependencies : addr;
  num_of_dependencies : Z;
  destructor : addr
}.

Definition set_ref_count (v : Z) (h : rclpy_handle_t) : rclpy_handle_t :=
  mk_handle (ptr h) v (dependencies h) (num_of_dependencies h) (destructor h).
Definition set_dependencies (v : addr) (h : rclpy_handle_t) : rclpy_handle_t :=
  mk_handle (ptr h) (ref_count h) v (num_of_dependencies h) (destructor h).
Definition set_num_of_dependencies (v : Z) (h : rclpy_handle_t) : rclpy_handle_t :=
  mk_handle (ptr h) (ref_count h) (dependencies h) v (destructor h).
Definition set_ptr (v : addr) (h : rclpy_handle_t) : rclpy_handle_t :=
  mk_handle v (ref_count h) (dependencies h) (num_of_dependencies h) (destructor h).
Definition set_destructor (v : addr) (h : rclpy_handle_t) : rclpy_handle_t :=
  mk_handle (ptr h) (ref_count h) (dependencies h) (num_of_dependencies h) v.

(** What [zero_allocate(1, sizeof(rclpy_handle_t))] hands back. *)
Definition zero_handle : rclpy_handle_t := mk_handle 0 0 0 0 0.

(** A heap block is either one handle record or an array of handle
    pointers (the [dependencies] storage). *)
Inductive block :=
| BHandle (h : rclpy_handle_t)
| BArray (l : list addr).

(** Effects visible outside the heap, in the order they happen. *)
Inductive event :=
| EvDestructor (fn : addr) (arg : addr)
| EvDeallocate (p : addr).

(** The allocator's future answers: [None] is an exhausted allocator,
    [Some a] proposes to place the block at [a]. *)
Record state := mk_state {
  heap : gmap Z block;
  placements : list (option addr);
  trace : list event
}.

Definition set_heap (f : gmap Z block → gmap Z block) (st : state) : state :=
  mk_state (f (heap st)) (placements st) (trace st).
Definition emit (e : event) (st : state) : state :=
  mk_state (heap st) (placements st) (trace st ++ [e]).

Inductive fault :=
| AssertionFailed
| InvalidAccess
| InvalidFree.

Inductive outcome (A : Type) :=
| Done (a : A) (st : state)
| Fault (f : fault)
| OutOfFuel.
Arguments Done {A} a st.
Arguments Fault {A} f.
Arguments OutOfFuel {A}.

Definition M (A : Type) : Type := state → outcome A.

Definition ret {A} (a : A) : M A := λ st, Done a st.
Definition bind {A B} (m : M A) (k : A → M B) : M B :=
  λ st, match m st with
        | Done a st' => k a st'
        | Fault f => Fault f
        | OutOfFuel => OutOfFuel
        end.
Definition raise {A} (f : fault) : M A := λ _, Fault f.
Definition modify (f : state → state) : M unit := λ st, Done tt (f st).

Notation "'do' x <~ m ; k" := (bind m (λ x, k))
  (at level 10, x name, m at level 100, k at level 200).
Notation "'run' m ; k" := (bind m (λ _, k))
  (at level 10, m at level 100, k at level 200).

(** ** Memory accesses *)

(** Dereferencing [NULL], a freed address or a block of the other kind is
    undefined behaviour. *)
Definition load_block (a : addr) (st : state) : option block :=
  if a =? NULL then None else heap st !! a.

Definition load_handle (a : addr) (st : state) : option rclpy_handle_t :=
  match load_block a st with
  | Some (BHandle h) => Some h
  | _ => None
  end.

Definition load_array (a : addr) (st : state) : option (list addr) :=
  match load_block a st with
  | Some (BArray l) => Some l
  | _ => None
  end.

Definition read_handle (a : addr) : M rclpy_handle_t :=
  λ st, match load_handle a st with
        | Some h => Done h st
        | None => Fault InvalidAccess
        end.

(** [handle->field = v], as a read-modify-write of the record. *)
Definition update_handle (a : addr) (f : rclpy_handle_t → rclpy_handle_t) : M unit :=
  do h <~ read_handle a;
  modify (set_heap <[a := BHandle (f h)]>).

(** [arr[i]] for a [size_t] index. *)
Definition read_entry (arr : addr) (i : Z) : M addr :=
  λ st, match load_array arr st with
        | Some l =>
            match l !! Z.to_nat i with
            | Some d => Done d st
            | None => Fault InvalidAccess
            end
        | None => Fault InvalidAccess
        end.

(** [arr[i] = v]; a write past the end of the block is undefined
    behaviour. *)
Definition write_entry (arr : addr) (i : Z) (v : addr) : M unit :=
  λ st, match load_array arr st with
        | Some l =>
            if Z.to_nat i <? length l
            then Done tt (set_heap <[arr := BArray (<[Z.to_nat i := v]> l)]> st)
            else Fault InvalidAccess
        | None => Fault InvalidAccess
        end%nat.

(** ** The allocator ([rcutils_get_default_allocator]) *)

Definition next_placement : M (option addr) :=
  λ st, match placements st with
        | [] => Done None st
        | d :: rest => Done d (mk_state (heap st) rest (trace st))
        end.

(** An address can receive a new block when it is not [NULL] and not
    occupied. *)
Definition vacant (a : addr) (st : state) : bool :=
  negb (a =? NULL) && bool_decide (heap st !! a = None).

(** [allocator.zero_allocate(1, sizeof(rclpy_handle_t), state)] *)
Definition zero_allocate_handle : M addr :=
  do d <~ next_placement;
  λ st, match d with
        | Some a =>
            if vacant a st
            then Done a (set_heap <[a := BHandle zero_handle]> st)
            else Done NULL st
        | None => Done NULL st
        end.

(** [allocator.reallocate(old, size, state)] for a block of handle
    pointers.  On failure the old block is untouched; on success the
    block holds [size / sizeof_ptr] entries, the old ones first, and may
    have moved.  What a request for zero bytes does is up to the C
    library and is not told apart here; the properties on failing calls
    are stated for requests of at least one entry. *)
Definition reallocate (old : addr) (size : Z) : M addr :=
  do content <~ (if old =? NULL then ret []
                 else λ st, match load_array old st with
                            | Some l => Done l st
                            | None => Fault InvalidFree
                            end);
  do d <~ next_placement;
  λ st, match d with
        | Some a =>
            if negb (a =? NULL) && ((a =? old) || vacant a st)
            then Done a (set_heap
                           (λ m, <[a := BArray (resize (Z.to_nat (size / sizeof_ptr)) NULL content)]>
                                   (delete old m)) st)
            else Done NULL st
        | None => Done NULL st
        end.

(** [allocator.deallocate(p, state)]: [free], a no-op on [NULL]. *)
Definition deallocate (p : addr) : M unit :=
  run modify (emit (EvDeallocate p));
  if p =? NULL then ret tt
  else λ st, match heap st !! p with
             | Some _ => Done tt (set_heap (delete p) st)
             | None => Fault InvalidFree
             end.

(** [handle->destructor(handle->ptr)]: the callback belongs to the wrapped
    resource and does not touch handles. *)
Definition call_destructor (fn arg : addr) : M unit :=
  modify (emit (EvDestructor fn arg)).

(** ** The three operations *)

Inductive rcutils_ret_t := RCUTILS_RET_OK | RCUTILS_RET_ERROR.

(** [_rclpy_create_handle] *)
Definition _rclpy_create_handle (p : addr) (dtor : addr) : M addr :=
  do handle <~ zero_allocate_handle;
  if handle =? NULL then
    (* fail: *)
    run deallocate handle;
    ret NULL
  else
    run update_handle handle (set_ptr p);
    run update_handle handle (λ h, set_ref_count (size_wrap (ref_count h + 1)) h);
    run update_handle handle (set_destructor dtor);
    ret handle.

(** [_rclpy_handle_add_dependency] *)
Definition _rclpy_handle_add_dependency (dependent dependency : addr) : M rcutils_ret_t :=
  if dependent =? NULL then raise AssertionFailed else
  if dependency =? NULL then raise AssertionFailed else
  run update_handle dependent
        (λ h, set_num_of_dependencies (size_wrap (num_of_dependencies h + 1)) h);
  do h <~ read_handle dependent;
  do new_dependencies <~ reallocate (dependencies h)
                           (size_wrap (num_of_dependencies h * sizeof_ptr));
  if new_dependencies =? NULL then ret RCUTILS_RET_ERROR else
  do h <~ read_handle dependent;
  run write_entry new_dependencies (size_wrap (num_of_dependencies h - 1)) dependency;
  run update_handle dependent (set_dependencies new_dependencies);
  run update_handle dependency (λ h, set_ref_count (size_wrap (ref_count h + 1)) h);
  ret RCUTILS_RET_OK.

(** The condition of the [assert] at the top of [_rclpy_handle_dec_ref]. *)
Definition deps_invariant (h : rclpy_handle_t) : bool :=
  (negb (num_of_dependencies h =? 0) && negb (dependencies h =? NULL))
  || ((num_of_dependencies h =? 0) && (dependencies h =? NULL)).

(** [for (size_t i = ...; i < handle->num_of_dependencies; i++)
       call(handle->dependencies[i]);]
    The handle is read again on every round, as the C loop does. *)
Fixpoint release_loop (n : nat) (call : addr → M unit) (handle : addr) (i : Z) : M unit :=
  match n with
  | O => λ _, OutOfFuel
  | S n' =>
      do h <~ read_handle handle;
      if i <? num_of_dependencies h then
        do d <~ read_entry (dependencies h) i;
        run call d;
        release_loop n' call handle (size_wrap (i + 1))
      else ret tt
  end.

(** [_rclpy_handle_dec_ref] *)
Fixpoint _rclpy_handle_dec_ref (fuel : nat) (handle : addr) : M unit :=
  match fuel with
  | O => λ _, OutOfFuel
  | S fuel' =>
      if handle =? NULL then ret tt else
      do h <~ read_handle handle;
      if negb (deps_invariant h) then raise AssertionFailed else
      run update_handle handle (λ h, set_ref_count (size_wrap (ref_count h - 1)) h);
      do h <~ read_handle handle;
      if negb (ref_count h =? 0) then
        run release_loop fuel' (_rclpy_handle_dec_ref fuel') handle 0;
        do h <~ read_handle handle;
        run (if negb (destructor h =? NULL)
             then call_destructor (destructor h) (ptr h) else ret tt);
        do h <~ read_handle handle;
        run deallocate (dependencies h);
        deallocate handle
      else ret tt
  end.

(** ** Notions used to state the properties *)

(** The dependency list of a handle: the first [num_of_dependencies]
    entries of the block [dependencies] points to. *)
Definition dependency_entries (h : rclpy_handle_t) (st : state) : list addr :=
  match load_array (dependencies h) st with
  | Some l => take (Z.to_nat (num_of_dependencies h)) l
  | None => []
  end.

(** One call of [_rclpy_handle_dec_ref] per element, left to right. *)
Fixpoint release_all (fuel : nat) (l : list addr) : M unit :=
  match l with
  | [] => ret tt
  | d :: l' => run _rclpy_handle_dec_ref fuel d; release_all fuel l'
  end.

Global Instance event_eq_dec : EqDecision event.
Proof. solve_decision. Defined.

(** The destructor calls recorded in a trace. *)
Definition destructor_calls (fn arg : addr) (t : list event) : nat :=
  length (filter (λ e, e = EvDestructor fn arg) t).

(** States used as concrete inputs. *)
Definition empty_state (ps : list (option addr)) : state := mk_state ∅ ps [].

(** The state right after [handle->ref_count--]. *)
Definition decremented (a : addr) (h : rclpy_handle_t) (st : state) : state :=
  set_heap <[a := BHandle (set_ref_count (size_wrap (ref_count h - 1)) h)]> st.

(** Two versions of a block that differ at most in the reference count. *)
Definition same_block (b b' : block) : Prop :=
  match b, b' with
  | BHandle h, BHandle h' =>
      ptr h = ptr h' ∧ dependencies h = dependencies h' ∧
      num_of_dependencies h = num_of_dependencies h' ∧
      destructor h = destructor h'
  | BArray l, BArray l' => l = l'
  | _, _ => False
  end.

(** What a release can do to a state: append events, drop blocks, change
    reference counts.  It creates no block and edits no dependency list. *)
Definition evolves (st st' : state) : Prop :=
  (∃ evs, trace st' = trace st ++ evs) ∧
  placements st' = placements st ∧
  ∀ a b', heap st' !! a = Some b' → ∃ b, heap st !! a = Some b ∧ same_block b b'.

(** The events of the destructor step of a teardown: one call when the
    handle has a destructor, none otherwise. *)
Definition destructor_events (h : rclpy_handle_t) : list event :=
  if destructor h =? NULL then [] else [EvDestructor (destructor h) (ptr h)].

(** A heap holding one handle, at address 16, that wraps resource 100 with
    destructor 7 and has no dependencies. *)
Definition lone_handle (count : Z) : state :=
  mk_state {[ 16 := BHandle (mk_handle 100 count NULL 0 7) ]} [] [].

(** A handle at 16 that depends on the handles at 32 and 64, in that
    order, through the two-entry block at 48. *)
Definition fan_out : state :=
  mk_state (list_to_map
              [ (16, BHandle (mk_handle 100 2 48 2 7));
                (48, BArray [32; 64]);
                (32, BHandle (mk_handle 200 1 NULL 0 8));
                (64, BHandle (mk_handle 300 2 NULL 0 9)) ])
           [] [].

(** ** Acyclic dependency graphs *)

(** A graph is acyclic when a rank strictly decreases along every
    dependency edge.  Checked block by block; the [size_t] length has to
    be a [size_t] value. *)
Definition block_ranked (rank : addr → nat) (st : state) (a : addr) (b : block) : bool :=
  match b with
  | BHandle h =>
      (num_of_dependencies h <=? SIZE_MAX)
      && forallb (λ d, (rank d <? rank a)%nat) (dependency_entries h st)
  | BArray _ => true
  end.

Definition acyclic (rank : addr → nat) (st : state) : bool :=
  forallb (λ '(a, b), block_ranked rank st a b) (map_to_list (heap st)).

Definition ranked (rank : addr → nat) (st : state) : Prop :=
  ∀ a h, load_handle a st = Some h →
         num_of_dependencies h ≤ SIZE_MAX ∧
         ∀ d, d ∈ dependency_entries h st → (rank d < rank a)%nat.

(** The longest dependency list among the handles of a heap. *)
Definition block_width (b : block) : nat :=
  match b with
  | BHandle h => Z.to_nat (num_of_dependencies h)
  | BArray _ => 0
  end.

Definition max_dependencies (st : state) : nat :=
  foldr (λ '(_, b) acc, Nat.max (block_width b) acc) 0%nat (map_to_list (heap st)).

(** Fuel that lets a release of [a] run to its end. *)
Definition enough_fuel (rank : addr → nat) (st : state) (a : addr) : nat :=
  (rank a + max_dependencies st + 2)%nat.

(** A bound on the length of every dependency list. *)
Definition narrow (N : nat) (st : state) : Prop :=
  ∀ a h, load_handle a st = Some h → (Z.to_nat (num_of_dependencies h) ≤ N)%nat.

(** A rank for [fan_out]: the dependent above its two dependencies. *)
Definition fan_out_rank (a : addr) : nat := if a =? 16 then 1%nat else 0%nat.

(** The index written and the capacity requested by a call on a list of
    recorded length [n]. *)
Definition slot_index (n : Z) : nat := Z.to_nat (size_wrap (size_wrap (n + 1) - 1)).
Definition capacity (n : Z) : nat :=
  Z.to_nat (size_wrap (size_wrap (n + 1) * sizeof_ptr) / sizeof_ptr).

(** Two unrelated handles, at 16 and 32, and the allocator's next
    answers. *)
Definition two_handles (ps : list (option addr)) : state :=
  mk_state (list_to_map
              [ (16, BHandle (mk_handle 100 1 NULL 0 7));
                (32, BHandle (mk_handle 200 1 NULL 0 8)) ])
           ps [].

(** The handle at 16 depends on the handle at 32 through the one-entry
    block at 48; the two reference counts are given. *)
Definition chain (count_dependent count_dependency : Z) : state :=
  mk_state (list_to_map
              [ (16, BHandle (mk_handle 100 count_dependent 48 1 7));
                (48, BArray [32]);
                (32, BHandle (mk_handle 200 count_dependency NULL 0 8)) ])
           [] [].

(** ** The CPython boundary

    The rest of [_rclpy_handle.c] wraps handles in [PyCapsule] objects
    and exposes the operations to Python.  The interpreter is seen through
    the C API calls the file makes: the error indicator, the allocation of
    capsule objects, and the capsule accessors, which behave as CPython
    documents them. *)

Inductive pyexc :=
| PyExc_TypeError
| PyExc_ValueError
| PyExc_RuntimeError
| PyExc_MemoryError
| PyExc_SystemError.

(** The destructor a capsule carries: none, or
    [_rclpy_handle_capsule_destructor], the only one this file installs. *)
Inductive capsule_destructor_t :=
| NoCapsuleDestructor
| HandleCapsuleDestructor.

(** Python objects, as far as this file tells them apart.  A capsule name
    is a C string, [None] when the [const char *] is null. *)
#[local] Set Warnings "-register-all".
Inductive pyobject :=
| PyCapsule (pointer : addr) (name : option string) (dtor : capsule_destructor_t)
| PyTuple (items : list pyobject)
| PyNone
| PyOther.

(** The interpreter state the file can observe: the error indicator and
    whether the next object allocations succeed. *)
Record pyenv := mk_pyenv {
  py_error : option pyexc;
  py_memory : list bool
}.

Definition PyM (A : Type) : Type := pyenv → M (A * pyenv).

Definition pyret {A} (a : A) : PyM A := λ env, ret (a, env).
Definition pybind {A B} (m : PyM A) (k : A → PyM B) : PyM B :=
  λ env, do r <~ m env; k (fst r) (snd r).
Definition native {A} (m : M A) : PyM A := λ env, do a <~ m; ret (a, env).

Notation "'py' x <~ m ; k" := (pybind m (λ x, k))
  (at level 10, x name, m at level 100, k at level 200).
Notation "'pyrun' m ; k" := (pybind m (λ _, k))
  (at level 10, m at level 100, k at level 200).

(** [PyErr_SetString] / [PyErr_Format] with exception type [e]. *)
Definition PyErr_SetString (e : pyexc) : PyM unit :=
  λ env, ret (tt, mk_pyenv (Some e) (py_memory env)).

Definition PyErr_Occurred : PyM bool :=
  λ env, ret (match py_error env with Some _ => true | None => false end, env).

(** CPython's [is_legal_capsule]: a non-null object of capsule type whose
    pointer is not null. *)
Definition legal_capsule (o : option pyobject) : option (addr * option string) :=
  match o with
  | Some (PyCapsule p n _) => if p =? NULL then None else Some (p, n)
  | _ => None
  end.

(** CPython's [name_matches]: both null, or both non-null and equal under
    [strcmp]. *)
Definition name_matches (n1 n2 : option string) : bool := bool_decide (n1 = n2).

Definition PyCapsule_GetName (o : option pyobject) : PyM (option string) :=
  match legal_capsule o with
  | Some (_, n) => pyret n
  | None => pyrun PyErr_SetString PyExc_ValueError; pyret None
  end.

Definition PyCapsule_GetPointer (o : option pyobject) (name : option string) : PyM addr :=
  match legal_capsule o with
  | Some (p, n) =>
      if name_matches name n then pyret p
      else pyrun PyErr_SetString PyExc_ValueError; pyret NULL
  | None => pyrun PyErr_SetString PyExc_ValueError; pyret NULL
  end.

Definition PyCapsule_New (pointer : addr) (name : option string)
    (dtor : capsule_destructor_t) : PyM (option pyobject) :=
  if pointer =? NULL then pyrun PyErr_SetString PyExc_ValueError; pyret None
  else λ env,
    match py_memory env with
    | true :: rest =>
        ret (Some (PyCapsule pointer name dtor), mk_pyenv (py_error env) rest)
    | false :: rest => ret (None, mk_pyenv (Some PyExc_MemoryError) rest)
    | [] => ret (None, mk_pyenv (Some PyExc_MemoryError) [])
    end.

(** [PyArg_ParseTuple(args, "O...O", ...)] with [arity] letters [O]: any
    objects, but exactly that many. *)
Definition PyArg_ParseTuple (arity : nat) (args : pyobject) : PyM (option (list pyobject)) :=
  match args with
  | PyTuple items =>
      if (length items =? arity)%nat then pyret (Some items)
      else pyrun PyErr_SetString PyExc_TypeError; pyret None
  | _ => pyrun PyErr_SetString PyExc_SystemError; pyret None
  end.

(** [_rclpy_handle_capsule_destructor] *)
Definition _rclpy_handle_capsule_destructor (fuel : nat) (capsule : pyobject) : PyM unit :=
  py name <~ PyCapsule_GetName (Some capsule);
  py handle <~ PyCapsule_GetPointer (Some capsule) name;
  if handle =? NULL then pyret tt
  else native (_rclpy_handle_dec_ref fuel handle).

(** [rclpy_create_handle_capsule] *)
Definition rclpy_create_handle_capsule (p : addr) (name : option string) (dtor : addr)
    : PyM (option pyobject) :=
  py handle <~ native (_rclpy_create_handle p dtor);
  if handle =? NULL then pyret None
  else PyCapsule_New handle name HandleCapsuleDestructor.

(** [rclpy_handle_get_pointer] *)
Definition rclpy_handle_get_pointer (capsule : option pyobject) (name : option string)
    : PyM addr :=
  py handle <~ PyCapsule_GetPointer capsule name;
  if handle =? NULL then pyret NULL
  else py h <~ native (read_handle handle); pyret (ptr h).

(** [rclpy_handle_add_dependency], the Python entry point *)
Definition rclpy_handle_add_dependency (args : pyobject) : PyM (option pyobject) :=
  py parsed <~ PyArg_ParseTuple 2 args;
  match parsed with
  | Some [dependent_capsule; dependency_capsule] =>
      py dependent_name <~ PyCapsule_GetName (Some dependent_capsule);
      py dependent <~ PyCapsule_GetPointer (Some dependent_capsule) dependent_name;
      py dependency_name <~ PyCapsule_GetName (Some dependency_capsule);
      py dependency <~ PyCapsule_GetPointer (Some dependency_capsule) dependency_name;
      py failed <~ PyErr_Occurred;
      if failed then pyret None else
      py r <~ native (_rclpy_handle_add_dependency dependent dependency);
      match r with
      | RCUTILS_RET_OK => pyret (Some PyNone)
      | RCUTILS_RET_ERROR => pyrun PyErr_SetString PyExc_RuntimeError; pyret None
      end
  | _ => pyret None
  end.

(** [rclpy_handle_dec_ref], the Python entry point *)
Definition rclpy_handle_dec_ref (fuel : nat) (args : pyobject) : PyM (option pyobject) :=
  py parsed <~ PyArg_ParseTuple 1 args;
  match parsed with
  | Some [handle_capsule] =>
      py name <~ PyCapsule_GetName (Some handle_capsule);
      py handle <~ PyCapsule_GetPointer (Some handle_capsule) name;
      py failed <~ PyErr_Occurred;
      if failed then pyret None else
      pyrun native (_rclpy_handle_dec_ref fuel handle);
      pyret (Some PyNone)
  | _ => pyret None
  end.

(** An interpreter with no exception pending. *)
Definition quiet (memory : list bool) : pyenv := mk_pyenv None memory.

(** The handle pointers a tuple of arguments carries, when every
    argument is a legal capsule. *)
Fixpoint capsule_pointers (items : list pyobject) : option (list addr) :=
  match items with
  | [] => Some []
  | c :: rest =>
      match legal_capsule (Some c), capsule_pointers rest with
      | Some (p, _), Some ps => Some (p :: ps)
      | _, _ => None
      end
  end.

Definition argument_handles (args : pyobject) : option (list addr) :=
  match args with
  | PyTuple items => capsule_pointers items
  | _ => None
  end.

(** A computation that never stops on a failed [assert]. *)
Definition no_assert {A} (m : M A) : Prop := ∀ st, m st ≠ Fault AssertionFailed.

(** Capsules for the handles of [two_handles], under different names. *)
Definition node_capsule : pyobject :=
  PyCapsule 16 (Some "rcl_node_t"%string) HandleCapsuleDestructor.
Definition context_capsule : pyobject :=
  PyCapsule 32 (Some "rcl_context_t"%string) HandleCapsuleDestructor.

(** Three handles made through the operations themselves: the handle at
    16 depends twice on the handle at 32, and the handle at 64 depends on
    the one at 16.  The graph is acyclic; every count is the initial 1
    plus one per edge that points to the handle. *)
Definition shared_duplicate : M unit :=
  do a <~ _rclpy_create_handle 100 7;
  do b <~ _rclpy_create_handle 200 8;
  do c <~ _rclpy_create_handle 300 9;
  run _rclpy_handle_add_dependency a b;
  run _rclpy_handle_add_dependency a b;
  run _rclpy_handle_add_dependency c a;
  ret tt.

Definition shared_duplicate_start : state :=
  empty_state [Some 16; Some 32; Some 64; Some 48; Some 80; Some 96].

Definition shared_duplicate_rank (a : addr) : nat :=
  if a =? 64 then 2%nat else if a =? 16 then 1%nat else 0%nat.

(** The state [shared_duplicate] ends in. *)
Definition shared_duplicate_state : state :=
  mk_state (list_to_map
              [ (16, BHandle (mk_handle 100 2 80 2 7));
                (80, BArray [32; 32]);
                (32, BHandle (mk_handle 200 3 NULL 0 8));
                (64, BHandle (mk_handle 300 1 96 1 9));
                (96, BArray [16]) ])
           [] [].

(** ** Reasoning about the monad *)

Lemma bind_Done {A B} (m : M A) (k : A → M B) st b st' :
  bind m k st = Done b st' ↔ ∃ a st1, m st = Done a st1 ∧ k a st1 = Done b st'.
Proof.
  unfold bind. split.
  - destruct (m st) as [a st1| |]; [eauto | discriminate | discriminate].
  - intros (a & st1 & -> & Hk). exact Hk.
Qed.

Lemma bind_not_OutOfFuel {A B} (m : M A) (k : A → M B) st :
  m st ≠ OutOfFuel →
  (∀ a st1, m st = Done a st1 → k a st1 ≠ OutOfFuel) →
  bind m k st ≠ OutOfFuel.
Proof.
  unfold bind. intros Hm Hk. destruct (m st); [by apply Hk | done | done].
Qed.

Lemma ret_Done {A} (a b : A) st st' : ret a st = Done b st' ↔ a = b ∧ st = st'.
Proof. unfold ret. split; [intros [= -> ->] | intros [-> ->]]; done. Qed.

Lemma modify_Done f u st st' : modify f st = Done u st' ↔ st' = f st.
Proof. unfold modify. destruct u. split; [intros [= <-] | intros ->]; done. Qed.

Lemma read_handle_Done a h st st' :
  read_handle a st = Done h st' ↔ st' = st ∧ load_handle a st = Some h.
Proof.
  unfold read_handle. destruct (load_handle a st) as [h0|].
  - split; [intros [= -> ->] | intros [-> [= ->]]]; done.
  - split; [discriminate | intros [_ [=]]].
Qed.

Lemma update_handle_Done a f u st st' :
  update_handle a f st = Done u st' ↔
  ∃ h, load_handle a st = Some h ∧ st' = set_heap <[a := BHandle (f h)]> st.
Proof.
  unfold update_handle. rewrite bind_Done. split.
  - intros (h & st1 & Hr & Hm). apply read_handle_Done in Hr as [-> Hl].
    apply modify_Done in Hm. eauto.
  - intros (h & Hl & ->). exists h, st. split; [by apply read_handle_Done |].
    by apply modify_Done.
Qed.

Lemma load_handle_lookup a h st :
  load_handle a st = Some h ↔ a ≠ NULL ∧ heap st !! a = Some (BHandle h).
Proof.
  unfold load_handle, load_block, NULL. destruct (Z.eqb_spec a 0) as [->|Hne].
  - split; [discriminate | intros [[] _]; done].
  - destruct (heap st !! a) as [[h0|l]|]; split; try (intros [= ->]; done);
      try discriminate; try (intros [_ [=]]; congruence).
Qed.

Lemma load_array_lookup a l st :
  load_array a st = Some l ↔ a ≠ NULL ∧ heap st !! a = Some (BArray l).
Proof.
  unfold load_array, load_block, NULL. destruct (Z.eqb_spec a 0) as [->|Hne].
  - split; [discriminate | intros [[] _]; done].
  - destruct (heap st !! a) as [[h0|l0]|]; split; try (intros [= ->]; done);
      try discriminate; try (intros [_ [=]]; congruence).
Qed.

(** Takes one [Done] equation apart, one monadic step at a time. *)
Ltac step_M :=
  match goal with
  | H : bind _ _ _ = Done _ _ |- _ =>
      apply bind_Done in H as (? & ? & ? & H)
  | H : ret _ _ = Done _ _ |- _ => apply ret_Done in H as [? ?]; subst
  | H : modify _ _ = Done _ _ |- _ => apply modify_Done in H; subst
  | H : raise _ _ = Done _ _ |- _ => discriminate H
  | H : read_handle _ _ = Done _ _ |- _ => apply read_handle_Done in H as [? H]; subst
  | H : update_handle _ _ _ = Done _ _ |- _ =>
      apply update_handle_Done in H as (? & ? & H); subst
  | H : call_destructor _ _ _ = Done _ _ |- _ =>
      unfold call_destructor in H; apply modify_Done in H; subst
  | H : (if ?c then _ else _) _ = Done _ _ |- _ => destruct c eqn:?
  end.

Lemma size_wrap_small z : 0 ≤ z ≤ SIZE_MAX → size_wrap z = z.
Proof.
  unfold size_wrap, SIZE_MAX. intros Hz. apply Z.mod_small. lia.
Qed.

Lemma size_wrap_range z : 0 ≤ size_wrap z ≤ SIZE_MAX.
Proof.
  unfold size_wrap, SIZE_MAX, SIZE_WIDTH.
  pose proof (Z.mod_pos_bound z (2 ^ 64) ltac:(lia)). lia.
Qed.

(** ** Allocation *)

Lemma zero_allocate_handle_Done a st st' :
  zero_allocate_handle st = Done a st' →
  (a = NULL ∧ heap st' = heap st ∧ trace st' = trace st) ∨
  (a ≠ NULL ∧ heap st !! a = None ∧
   heap st' = <[a := BHandle zero_handle]> (heap st) ∧ trace st' = trace st).
Proof.
  unfold zero_allocate_handle, next_placement, bind.
  destruct (placements st) as [|[p|] rest]; simpl.
  - intros [= <- <-]. by left.
  - unfold vacant. simpl.
    destruct (Z.eqb_spec p NULL) as [Hp|Hp]; simpl.
    + intros [= <- <-]. by left.
    + case_bool_decide as Hv; simpl.
      * intros [= <- <-]. right. done.
      * intros [= <- <-]. by left.
  - intros [= <- <-]. by left.
Qed.

Lemma deallocate_NULL st : deallocate NULL st = Done tt (emit (EvDeallocate NULL) st).
Proof. reflexivity. Qed.

Lemma deallocate_Done p u st st' :
  deallocate p st = Done u st' →
  trace st' = trace st ++ [EvDeallocate p] ∧
  placements st' = placements st ∧
  ((p = NULL ∧ heap st' = heap st) ∨
   (p ≠ NULL ∧ is_Some (heap st !! p) ∧ heap st' = delete p (heap st))).
Proof.
  unfold deallocate. intros H. repeat step_M.
  - apply Z.eqb_eq in Heqb. subst. simpl. eauto.
  - apply Z.eqb_neq in Heqb. simpl in H.
    destruct (heap st !! p) as [b|] eqn:Hp; [|discriminate].
    injection H as H. subst st'. simpl. split; [done|]. split; [done|]. right. eauto.
Qed.

(** ** Creation *)

Lemma create_handle_Done p dtor a st st' :
  _rclpy_create_handle p dtor st = Done a st' →
  (a = NULL ∧ heap st' = heap st) ∨
  (a ≠ NULL ∧ heap st !! a = None ∧
   heap st' = <[a := BHandle (mk_handle p 1 NULL 0 dtor)]> (heap st) ∧
   trace st' = trace st).
Proof.
  unfold _rclpy_create_handle. intros H.
  apply bind_Done in H as (h & st1 & Hz & H).
  apply zero_allocate_handle_Done in Hz as [(-> & Hh & Ht)|(Hne & Hfree & Hh & Ht)].
  - left. simpl in H. repeat step_M. apply deallocate_Done in H0 as (_ & _ & Hd).
    destruct Hd as [[_ ->]|[[] _]]; done.
  - right. apply Z.eqb_neq in Hne as Hb. rewrite Hb in H.
    repeat step_M.
    rewrite !load_handle_lookup in *. simpl in *.
    repeat match goal with
           | H : _ ∧ _ |- _ => destruct H
           end.
    rewrite Hh in *. simplify_map_eq. simpl.
    rewrite !insert_insert_eq. done.
Qed.

(** C6: a successful [_rclpy_create_handle] returns a handle whose
    reference count is 1, whose dependency list is empty (null pointer,
    length 0), and whose resource pointer and destructor are the
    arguments. *)
Theorem create_handle_fields p dtor st a st' :
  _rclpy_create_handle p dtor st = Done a st' →
  a ≠ NULL →
  ∃ h, load_handle a st' = Some h ∧
       ref_count h = 1 ∧
       dependencies h = NULL ∧ num_of_dependencies h = 0 ∧
       dependency_entries h st' = [] ∧
       ptr h = p ∧ destructor h = dtor.
Proof.
  intros H Ha. apply create_handle_Done in H as [[-> _]|(_ & _ & Hh & _)]; [done|].
  exists (mk_handle p 1 NULL 0 dtor). split.
  - apply load_handle_lookup. split; [done|]. rewrite Hh. apply lookup_insert_eq.
  - repeat split.
Qed.

Lemma create_handle_fields_witness :
  ∃ st', _rclpy_create_handle 100 7 (empty_state [Some 16]) = Done 16 st' ∧
         ∃ h, load_handle 16 st' = Some h ∧
              ref_count h = 1 ∧
              dependencies h = NULL ∧ num_of_dependencies h = 0 ∧
              dependency_entries h st' = [] ∧
              ptr h = 100 ∧ destructor h = 7.
Proof.
  eexists. split.
  - vm_compute. reflexivity.
  - apply (create_handle_fields 100 7 (empty_state [Some 16]) 16).
    + vm_compute. reflexivity.
    + unfold NULL. lia.
Defined.

(** C8: when the allocator cannot satisfy the request,
    [_rclpy_create_handle] returns [NULL] and the heap is the one the call
    started from: no block survives the failed call. *)
Theorem create_handle_allocation_failure p dtor st st1 :
  zero_allocate_handle st = Done NULL st1 →
  ∃ st', _rclpy_create_handle p dtor st = Done NULL st' ∧
         heap st' = heap st.
Proof.
  intros Hz. unfold _rclpy_create_handle, bind at 1. rewrite Hz. simpl.
  eexists. split; [reflexivity|]. simpl.
  apply zero_allocate_handle_Done in Hz as [(_ & Hh & _)|(Hne & _)]; done.
Qed.

Lemma create_handle_allocation_failure_witness :
  ∃ st', _rclpy_create_handle 100 7 (empty_state [None; Some 16]) = Done NULL st' ∧
         heap st' = heap (empty_state [None; Some 16]).
Proof.
  apply (create_handle_allocation_failure 100 7 (empty_state [None; Some 16])
           (empty_state [Some 16])).
  vm_compute. reflexivity.
Defined.

(** ** Release: one level of the recursion *)

Lemma dec_ref_NULL fuel st : _rclpy_handle_dec_ref (S fuel) NULL st = Done tt st.
Proof. reflexivity. Qed.

Lemma dec_ref_no_fuel a st : _rclpy_handle_dec_ref 0 a st = OutOfFuel.
Proof. reflexivity. Qed.

Lemma load_handle_decremented a h st :
  a ≠ NULL →
  load_handle a (decremented a h st)
  = Some (set_ref_count (size_wrap (ref_count h - 1)) h).
Proof.
  intros Ha. apply load_handle_lookup. split; [done|]. apply lookup_insert_eq.
Qed.

(** When the decrement reaches zero the call stops there. *)
Lemma dec_ref_reaches_zero fuel a h st :
  load_handle a st = Some h →
  deps_invariant h = true →
  size_wrap (ref_count h - 1) = 0 →
  _rclpy_handle_dec_ref (S fuel) a st = Done tt (decremented a h st).
Proof.
  intros Hl Hinv Hz. apply load_handle_lookup in Hl as Hl'. destruct Hl' as [Ha Hh].
  simpl. apply Z.eqb_neq in Ha as Hb. rewrite Hb.
  unfold bind at 1, read_handle at 1. rewrite Hl, Hinv. simpl.
  unfold bind at 1, update_handle, bind at 1, read_handle at 1. rewrite Hl. simpl.
  fold (decremented a h st).
  unfold bind at 1, read_handle at 1. rewrite load_handle_decremented by done.
  simpl. rewrite Hz. reflexivity.
Qed.

(** When it does not, the call runs the loop over the dependencies, the
    destructor and the two deallocations, in that order. *)
Lemma dec_ref_Done_inv fuel a st st' :
  _rclpy_handle_dec_ref (S fuel) a st = Done tt st' →
  a ≠ NULL →
  ∃ h, load_handle a st = Some h ∧ deps_invariant h = true ∧
       ((size_wrap (ref_count h - 1) = 0 ∧ st' = decremented a h st) ∨
        (size_wrap (ref_count h - 1) ≠ 0 ∧
         ∃ st2 h2 st4,
           release_loop fuel (_rclpy_handle_dec_ref fuel) a 0 (decremented a h st)
           = Done tt st2 ∧
           load_handle a st2 = Some h2 ∧
           deallocate (dependencies h2)
             (if destructor h2 =? NULL then st2
              else emit (EvDestructor (destructor h2) (ptr h2)) st2)
           = Done tt st4 ∧
           deallocate a st4 = Done tt st')).
Proof.
  intros H Ha. simpl in H. apply Z.eqb_neq in Ha as Hb. rewrite Hb in H.
  apply bind_Done in H as (h & st0 & Hr & H).
  apply read_handle_Done in Hr as [-> Hl].
  exists h. split; [done|].
  destruct (deps_invariant h) eqn:Hinv; [|discriminate]. split; [done|].
  simpl in H.
  apply bind_Done in H as ([] & st1 & Hu & H).
  apply update_handle_Done in Hu as (h' & Hl' & ->).
  assert (h' = h) as -> by congruence. fold (decremented a h st) in H.
  apply bind_Done in H as (h1 & st1 & Hr & H).
  apply read_handle_Done in Hr as [-> Hl1].
  rewrite load_handle_decremented in Hl1 by done. injection Hl1 as <-.
  simpl in H. destruct (Z.eqb_spec (size_wrap (ref_count h - 1)) 0) as [Hz|Hnz]; simpl in H.
  - left. apply ret_Done in H as [_ <-]. done.
  - right. split; [done|].
    apply bind_Done in H as ([] & st2 & Hloop & H).
    apply bind_Done in H as (h2 & st2' & Hr & H).
    apply read_handle_Done in Hr as [-> Hl2].
    apply bind_Done in H as ([] & st3 & Hd & H).
    apply bind_Done in H as (h3 & st3' & Hr & H).
    apply read_handle_Done in Hr as [-> Hl3].
    apply bind_Done in H as ([] & st4 & Hf1 & Hf2).
    exists st2, h2, st4. split; [done|]. split; [done|].
    destruct (Z.eqb_spec (destructor h2) NULL) as [Hd0|Hd0]; simpl in Hd.
    + apply ret_Done in Hd as [_ <-]. rewrite Hl2 in Hl3. injection Hl3 as <-. done.
    + unfold call_destructor in Hd. apply modify_Done in Hd. subst st3.
      assert (h3 = h2) as ->.
      { unfold load_handle, load_block in *. simpl in *. congruence. }
      done.
Qed.

(** ** What a release leaves alone *)

Lemma same_block_refl b : same_block b b.
Proof. destruct b; simpl; done. Qed.

Lemma same_block_trans b1 b2 b3 : same_block b1 b2 → same_block b2 b3 → same_block b1 b3.
Proof.
  destruct b1, b2, b3; simpl; try done.
  - intros (-> & -> & -> & ->) (-> & -> & -> & ->). done.
  - congruence.
Qed.

Lemma evolves_refl st : evolves st st.
Proof.
  split; [exists []; by rewrite app_nil_r|]. split; [done|].
  intros a b Hb. exists b. split; [done | apply same_block_refl].
Qed.

Lemma evolves_trans st1 st2 st3 : evolves st1 st2 → evolves st2 st3 → evolves st1 st3.
Proof.
  intros ([e1 He1] & Hp1 & Hh1) ([e2 He2] & Hp2 & Hh2).
  split; [exists (e1 ++ e2); by rewrite He2, He1, app_assoc|].
  split; [congruence|].
  intros a b3 Hb3. apply Hh2 in Hb3 as (b2 & Hb2 & Hs2).
  apply Hh1 in Hb2 as (b1 & Hb1 & Hs1).
  exists b1. split; [done | by eapply same_block_trans].
Qed.

Lemma evolves_emit e st : evolves st (emit e st).
Proof.
  split; [by exists [e]|]. split; [done|].
  intros a b Hb. exists b. split; [done | apply same_block_refl].
Qed.

Lemma evolves_decremented a h st :
  load_handle a st = Some h → evolves st (decremented a h st).
Proof.
  intros [Ha Hh]%load_handle_lookup.
  split; [exists []; simpl; by rewrite app_nil_r|]. split; [done|].
  intros a' b'. simpl. destruct (decide (a = a')) as [<-|Hne].
  - rewrite lookup_insert_eq. intros [= <-]. exists (BHandle h). done.
  - rewrite lookup_insert_ne by done. intros Hb. exists b'.
    split; [done | apply same_block_refl].
Qed.

Lemma evolves_deallocate p u st st' : deallocate p st = Done u st' → evolves st st'.
Proof.
  intros (Ht & Hp & Hh)%deallocate_Done.
  split; [by eexists|]. split; [done|].
  intros a b' Hb'. exists b'. split; [|apply same_block_refl].
  destruct Hh as [[_ Hh]|(_ & _ & Hh)]; rewrite Hh in Hb'; [done|].
  apply lookup_delete_Some in Hb' as [_ Hb']. done.
Qed.

Lemma release_loop_evolves n call a :
  (∀ d s s', call d s = Done tt s' → evolves s s') →
  ∀ i st st', release_loop n call a i st = Done tt st' → evolves st st'.
Proof.
  intros Hcall. induction n as [|n IH]; intros i st st' H; [discriminate|].
  simpl in H. apply bind_Done in H as (h & st0 & Hr & H).
  apply read_handle_Done in Hr as [-> Hl].
  destruct (i <? num_of_dependencies h).
  - apply bind_Done in H as (d & st1 & Hd & H).
    assert (st1 = st) as ->.
    { unfold read_entry in Hd. repeat case_match; congruence. }
    apply bind_Done in H as ([] & st2 & Hc & H).
    eapply evolves_trans; [by eapply Hcall | by eapply IH].
  - apply ret_Done in H as [_ <-]. apply evolves_refl.
Qed.

Lemma dec_ref_evolves fuel :
  ∀ a st st', _rclpy_handle_dec_ref fuel a st = Done tt st' → evolves st st'.
Proof.
  induction fuel as [|fuel IH]; intros a st st' H; [discriminate|].
  destruct (decide (a = NULL)) as [->|Ha].
  { rewrite dec_ref_NULL in H. injection H as <-. apply evolves_refl. }
  apply dec_ref_Done_inv in H as (h & Hl & _ & H); [|done].
  destruct H as [[_ ->]|(_ & st2 & h2 & st4 & Hloop & Hl2 & Hf1 & Hf2)].
  { by apply evolves_decremented. }
  eapply evolves_trans; [by apply evolves_decremented|].
  eapply evolves_trans; [eapply release_loop_evolves; [|exact Hloop]; exact IH|].
  eapply evolves_trans; [|by eapply evolves_deallocate].
  eapply evolves_trans; [|by eapply evolves_deallocate].
  destruct (destructor h2 =? NULL); [apply evolves_refl | apply evolves_emit].
Qed.

Lemma evolves_load_handle st st' a h' :
  evolves st st' → load_handle a st' = Some h' →
  ∃ h, load_handle a st = Some h ∧
       ptr h = ptr h' ∧ dependencies h = dependencies h' ∧
       num_of_dependencies h = num_of_dependencies h' ∧
       destructor h = destructor h'.
Proof.
  intros (_ & _ & Hh) [Ha Hl]%load_handle_lookup.
  apply Hh in Hl as ([h|l] & Hb & Hs); simpl in Hs; [|done].
  exists h. split; [by apply load_handle_lookup | done].
Qed.

Lemma evolves_load_array st st' a l :
  evolves st st' → load_array a st' = Some l → load_array a st = Some l.
Proof.
  intros (_ & _ & Hh) [Ha Hl]%load_array_lookup.
  apply Hh in Hl as ([h|l0] & Hb & Hs); simpl in Hs; [done|]. subst.
  by apply load_array_lookup.
Qed.

(** ** The teardown branch *)

Lemma dec_ref_teardown fuel a h st st' :
  load_handle a st = Some h →
  size_wrap (ref_count h - 1) ≠ 0 →
  _rclpy_handle_dec_ref (S fuel) a st = Done tt st' →
  ∃ st2,
    release_loop fuel (_rclpy_handle_dec_ref fuel) a 0 (decremented a h st)
    = Done tt st2 ∧
    trace st' = trace st2 ++ destructor_events h
                ++ [EvDeallocate (dependencies h); EvDeallocate a] ∧
    heap st' !! a = None.
Proof.
  intros Hl Hnz H. apply load_handle_lookup in Hl as Hl'. destruct Hl' as [Ha _].
  apply dec_ref_Done_inv in H as (h0 & Hl0 & _ & H); [|done].
  assert (h0 = h) as -> by congruence.
  destruct H as [[Hz _]|(_ & st2 & h2 & st4 & Hloop & Hl2 & Hf1 & Hf2)]; [done|].
  exists st2. split; [done|].
  assert (evolves (decremented a h st) st2) as Hev.
  { eapply release_loop_evolves; [|exact Hloop]. apply dec_ref_evolves. }
  destruct (evolves_load_handle _ _ _ _ Hev Hl2) as (h1 & Hl1 & Hp & Hd & _ & Hdt).
  rewrite load_handle_decremented in Hl1 by done. injection Hl1 as <-.
  simpl in Hp, Hd, Hdt.
  apply deallocate_Done in Hf1 as (Ht1 & _ & _).
  apply deallocate_Done in Hf2 as (Ht2 & _ & Hh2).
  split.
  - rewrite Ht2, Ht1. unfold destructor_events. rewrite Hp, Hd, Hdt.
    destruct (destructor h2 =? NULL); simpl; by rewrite <- ?app_assoc.
  - destruct Hh2 as [[? _]|(_ & _ & ->)]; [done|]. apply lookup_delete_eq.
Qed.

(** C1, evaluated: releasing the only reference to a handle without
    dependencies leaves the count at zero, the record in place, and
    records neither a destructor call nor a deallocation. *)
Theorem dec_ref_last_reference_no_teardown :
  ∀ fuel,
    ∃ st', _rclpy_handle_dec_ref (S fuel) 16 (lone_handle 1) = Done tt st' ∧
           load_handle 16 st' = Some (mk_handle 100 0 NULL 0 7) ∧
           trace st' = [] ∧
           destructor_calls 7 100 (trace st') = 0%nat.
Proof.
  intros fuel. eexists. split.
  - apply (dec_ref_reaches_zero fuel 16 (mk_handle 100 1 NULL 0 7)); reflexivity.
  - vm_compute. done.
Qed.

(** C2, evaluated: releasing one of two references to a handle runs the
    destructor and deallocates the record although a reference remains. *)
Theorem dec_ref_shared_handle_torn_down :
  ∃ st', _rclpy_handle_dec_ref 2 16 (lone_handle 2) = Done tt st' ∧
         load_handle 16 st' = None ∧
         trace st' = [EvDestructor 7 100; EvDeallocate NULL; EvDeallocate 16] ∧
         destructor_calls 7 100 (trace st') = 1%nat.
Proof.
  eexists. split; [vm_compute; reflexivity|]. vm_compute. done.
Qed.

(** ** The loop over the dependencies *)

Lemma dependency_entries_decremented a h h' st :
  load_handle a st = Some h' →
  dependency_entries h (decremented a h' st) = dependency_entries h st.
Proof.
  intros [Ha Hl]%load_handle_lookup.
  unfold dependency_entries, load_array, load_block. simpl.
  destruct (dependencies h =? NULL); [done|].
  destruct (decide (a = dependencies h)) as [<-|Hne].
  - rewrite lookup_insert_eq, Hl. done.
  - rewrite lookup_insert_ne by done. done.
Qed.

(** A loop that completes has made one call per entry of the dependency
    list the handle had when the loop started, in order: nothing a call
    does can change the list and leave the loop able to go on. *)
Lemma release_loop_release_all fuel a h0 st0 :
  load_handle a st0 = Some h0 →
  num_of_dependencies h0 ≤ SIZE_MAX →
  ∀ n i st st',
    evolves st0 st → 0 ≤ i →
    release_loop n (_rclpy_handle_dec_ref fuel) a i st = Done tt st' →
    release_all fuel (drop (Z.to_nat i) (dependency_entries h0 st0)) st = Done tt st'.
Proof.
  intros Hl0 Hmax. induction n as [|n IH]; intros i st st' Hev Hi H; [discriminate|].
  simpl in H. apply bind_Done in H as (h & st1 & Hr & H).
  apply read_handle_Done in Hr as [-> Hl].
  destruct (evolves_load_handle _ _ _ _ Hev Hl) as (h0' & Hl0' & _ & Hd & Hn & _).
  assert (h0' = h0) as -> by congruence.
  destruct (Z.ltb_spec i (num_of_dependencies h)) as [Hlt|Hge].
  - apply bind_Done in H as (d & st1 & Hd1 & H).
    unfold read_entry in Hd1.
    destruct (load_array (dependencies h) st) as [l|] eqn:Harr; [|discriminate].
    destruct (l !! Z.to_nat i) as [d'|] eqn:Hli; [|discriminate].
    injection Hd1 as -> ->.
    apply (evolves_load_array _ _ _ _ Hev) in Harr.
    apply bind_Done in H as ([] & st2 & Hc & H).
    assert (drop (Z.to_nat i) (dependency_entries h0 st0)
            = d :: drop (Z.to_nat (size_wrap (i + 1))) (dependency_entries h0 st0)) as ->.
    { unfold dependency_entries. rewrite Hd, Harr, Hn.
      rewrite size_wrap_small by lia.
      replace (Z.to_nat (i + 1)) with (S (Z.to_nat i)) by lia.
      apply drop_S. rewrite lookup_take_lt by lia. done. }
    simpl. apply bind_Done. exists tt, st2. split; [done|].
    apply IH; [|apply size_wrap_range|done].
    eapply evolves_trans; [exact Hev|]. by eapply dec_ref_evolves.
  - apply ret_Done in H as [_ <-].
    rewrite drop_ge; [done|].
    unfold dependency_entries. destruct (load_array (dependencies h0) st0); simpl; [|lia].
    rewrite length_take. lia.
Qed.



(** C3: in [_rclpy_handle_dec_ref] as implemented, the teardown branch
    runs exactly when the reference count after the decrement is
    non-zero.  The branch is seen by all it does: one release per entry of
    the dependency list, then the destructor call (when a destructor is
    set), then the deallocation of the dependency storage and of the
    record, which is gone afterwards.  When the decremented count is zero
    none of it happens: the state is the one right after the decrement. *)
Theorem dec_ref_teardown_iff_nonzero fuel a h st st' :
  load_handle a st = Some h →
  num_of_dependencies h ≤ SIZE_MAX →
  _rclpy_handle_dec_ref (S fuel) a st = Done tt st' →
  ((∃ st2,
      release_all fuel (dependency_entries h st) (decremented a h st) = Done tt st2 ∧
      trace st' = trace st2
                  ++ (if destructor h =? NULL then []
                      else [EvDestructor (destructor h) (ptr h)])
                  ++ [EvDeallocate (dependencies h); EvDeallocate a] ∧
      load_handle a st' = None)
   ↔ size_wrap (ref_count h - 1) ≠ 0) ∧
  (load_handle a st' = None ↔ size_wrap (ref_count h - 1) ≠ 0) ∧
  (st' = decremented a h st ↔ size_wrap (ref_count h - 1) = 0).
Proof.
  intros Hl Hmax H.
  apply load_handle_lookup in Hl as Hl'. destruct Hl' as [Ha _].
  destruct (decide (size_wrap (ref_count h - 1) = 0)) as [Hz|Hnz].
  - apply dec_ref_Done_inv in H as (h0 & Hl0 & Hinv & H); [|done].
    assert (h0 = h) as -> by congruence.
    destruct H as [[_ ->]|[Hnz _]]; [|done].
    pose proof (load_handle_decremented a h st Ha) as Hl1.
    split; [|split].
    + split; [|done]. intros (st2 & _ & _ & Hgone). congruence.
    + split; [|done]. intros Hgone. congruence.
    + done.
  - destruct (dec_ref_teardown _ _ _ _ _ Hl Hnz H) as (st2 & Hloop & Ht & Hgone).
    assert (load_handle a st' = None) as Hnone.
    { unfold load_handle, load_block. rewrite Hgone. by destruct (a =? NULL). }
    split; [|split].
    + split; [done|]. intros _. exists st2. split; [|split; [exact Ht | exact Hnone]].
      rewrite <- (dependency_entries_decremented a h h st) by done.
      change (dependency_entries h (decremented a h st))
        with (drop (Z.to_nat 0) (dependency_entries
                (set_ref_count (size_wrap (ref_count h - 1)) h) (decremented a h st))).
      eapply release_loop_release_all; [| |apply evolves_refl|lia|exact Hloop].
      * by apply load_handle_decremented.
      * done.
    + done.
    + split; [|done]. intros ->. rewrite load_handle_decremented in Hnone by done.
      discriminate.
Qed.

Lemma dec_ref_teardown_iff_nonzero_witness :
  ∃ st', _rclpy_handle_dec_ref 4 16 fan_out = Done tt st' ∧
  ((∃ st2,
      release_all 3 (dependency_entries (mk_handle 100 2 48 2 7) fan_out)
        (decremented 16 (mk_handle 100 2 48 2 7) fan_out) = Done tt st2 ∧
      trace st' = trace st2
                  ++ (if destructor (mk_handle 100 2 48 2 7) =? NULL then []
                      else [EvDestructor (destructor (mk_handle 100 2 48 2 7))
                              (ptr (mk_handle 100 2 48 2 7))])
                  ++ [EvDeallocate (dependencies (mk_handle 100 2 48 2 7));
                      EvDeallocate 16] ∧
      load_handle 16 st' = None)
   ↔ size_wrap (ref_count (mk_handle 100 2 48 2 7) - 1) ≠ 0) ∧
  (load_handle 16 st' = None
   ↔ size_wrap (ref_count (mk_handle 100 2 48 2 7) - 1) ≠ 0) ∧
  (st' = decremented 16 (mk_handle 100 2 48 2 7) fan_out
   ↔ size_wrap (ref_count (mk_handle 100 2 48 2 7) - 1) = 0).
Proof.
  eexists. split.
  - vm_compute. reflexivity.
  - apply (dec_ref_teardown_iff_nonzero 3 16 (mk_handle 100 2 48 2 7) fan_out).
    + vm_compute. reflexivity.
    + vm_compute. discriminate.
    + vm_compute. reflexivity.
Defined.

(** ** Termination on acyclic graphs *)

Lemma acyclic_ranked rank st : acyclic rank st = true → ranked rank st.
Proof.
  unfold acyclic. rewrite forallb_forall. intros Hall a h [Ha Hl]%load_handle_lookup.
  apply elem_of_map_to_list, list_elem_of_In, Hall in Hl. simpl in Hl.
  apply andb_true_iff in Hl as [Hn Hd]. split; [by apply Z.leb_le|].
  intros d Hin. rewrite forallb_forall in Hd.
  apply list_elem_of_In, Hd, Nat.ltb_lt in Hin. done.
Qed.

Lemma max_dependencies_bound st a h :
  load_handle a st = Some h →
  (Z.to_nat (num_of_dependencies h) ≤ max_dependencies st)%nat.
Proof.
  intros [_ Hl]%load_handle_lookup. apply elem_of_map_to_list in Hl.
  unfold max_dependencies. induction (map_to_list (heap st)) as [|[a' b'] l IH].
  - by apply elem_of_nil in Hl.
  - apply elem_of_cons in Hl as [[= <- <-]|Hl]; simpl; [lia|].
    specialize (IH Hl). lia.
Qed.

Lemma deallocate_not_OutOfFuel p st : deallocate p st ≠ OutOfFuel.
Proof.
  unfold deallocate, bind, modify. simpl.
  destruct (p =? NULL); [done|]. by destruct (heap _ !! p).
Qed.

Lemma read_handle_not_OutOfFuel a st : read_handle a st ≠ OutOfFuel.
Proof. unfold read_handle. by destruct (load_handle a st). Qed.

Lemma read_entry_not_OutOfFuel arr i st : read_entry arr i st ≠ OutOfFuel.
Proof.
  unfold read_entry. destruct (load_array arr st) as [l|]; [|done].
  by destruct (l !! Z.to_nat i).
Qed.

Lemma update_handle_not_OutOfFuel a f st : update_handle a f st ≠ OutOfFuel.
Proof.
  unfold update_handle. apply bind_not_OutOfFuel; [apply read_handle_not_OutOfFuel|done].
Qed.

Section Termination.

(** The rank that witnesses acyclicity and a bound on the length of the
    dependency lists; both survive every step of a release. *)
Variable rank : addr → nat.
Variable N : nat.

Lemma ranked_evolves st st' : evolves st st' → ranked rank st → ranked rank st'.
Proof.
  intros Hev Hr a h' Hl'.
  destruct (evolves_load_handle _ _ _ _ Hev Hl') as (h & Hl & _ & Hd & Hn & _).
  destruct (Hr a h Hl) as [Hmax Hlt]. split; [lia|].
  intros d Hin. apply Hlt. revert Hin. unfold dependency_entries.
  rewrite <- Hd, <- Hn.
  destruct (load_array (dependencies h) st') as [l|] eqn:Harr; [|by intros ?%elem_of_nil].
  by rewrite (evolves_load_array _ _ _ _ Hev Harr).
Qed.

Lemma narrow_evolves st st' : evolves st st' → narrow N st → narrow N st'.
Proof.
  intros Hev Hn a h' Hl'.
  destruct (evolves_load_handle _ _ _ _ Hev Hl') as (h & Hl & _ & _ & Hnum & _).
  rewrite <- Hnum. by eapply Hn.
Qed.

Lemma release_loop_terminates fuel a :
  (∀ d st, ranked rank st → narrow N st → (rank d < rank a)%nat →
           _rclpy_handle_dec_ref fuel d st ≠ OutOfFuel) →
  ∀ n i st,
    ranked rank st → narrow N st → 0 ≤ i →
    (1 ≤ n)%nat → (N + 1 ≤ n + Z.to_nat i)%nat →
    release_loop n (_rclpy_handle_dec_ref fuel) a i st ≠ OutOfFuel.
Proof.
  intros Hcall. induction n as [|n IH]; intros i st Hr Hn Hi Hpos Hfuel; [lia|].
  simpl. apply bind_not_OutOfFuel; [apply read_handle_not_OutOfFuel|].
  intros h st0 [E Hl]%read_handle_Done. subst st0.
  destruct (Hr a h Hl) as [Hmax Hlt]. pose proof (Hn a h Hl) as Hwide.
  destruct (Z.ltb_spec i (num_of_dependencies h)) as [Hin|Hout]; [|done].
  apply bind_not_OutOfFuel; [apply read_entry_not_OutOfFuel|].
  intros d st1 Hd. unfold read_entry in Hd.
  destruct (load_array (dependencies h) st) as [l|] eqn:Harr; [|discriminate].
  destruct (l !! Z.to_nat i) as [d'|] eqn:Hli; [|discriminate].
  injection Hd as E1 E2. subst d' st1.
  assert (d ∈ dependency_entries h st) as Hd.
  { unfold dependency_entries. rewrite Harr. apply list_elem_of_lookup.
    exists (Z.to_nat i). rewrite lookup_take_lt by lia. done. }
  apply bind_not_OutOfFuel; [apply Hcall; auto|].
  intros [] st2 Hc. apply dec_ref_evolves in Hc.
  rewrite size_wrap_small by lia.
  apply IH; [by eapply ranked_evolves | by eapply narrow_evolves | lia | lia | lia].
Qed.

Lemma dec_ref_terminates :
  ∀ fuel a st,
    ranked rank st → narrow N st → (rank a + N + 2 ≤ fuel)%nat →
    _rclpy_handle_dec_ref fuel a st ≠ OutOfFuel.
Proof.
  induction fuel as [|fuel IH]; intros a st Hr Hn Hfuel; [lia|].
  simpl. destruct (a =? NULL); [done|].
  apply bind_not_OutOfFuel; [apply read_handle_not_OutOfFuel|].
  intros h st0 [E Hl]%read_handle_Done. subst st0.
  destruct (negb (deps_invariant h)); [done|].
  apply bind_not_OutOfFuel; [apply update_handle_not_OutOfFuel|].
  intros [] st1 (h' & Hl' & ->)%update_handle_Done.
  assert (h' = h) as -> by congruence. fold (decremented a h st).
  pose proof (evolves_decremented a h st Hl) as Hev.
  apply bind_not_OutOfFuel; [apply read_handle_not_OutOfFuel|].
  intros h1 st1 [E Hl1]%read_handle_Done. subst st1.
  destruct (negb (ref_count h1 =? 0)); [|done].
  apply bind_not_OutOfFuel.
  { apply release_loop_terminates.
    - intros d s Hrs Hns Hlt. apply IH; [done | done | lia].
    - by eapply ranked_evolves.
    - by eapply narrow_evolves.
    - lia.
    - lia.
    - lia. }
  intros [] st2 _.
  apply bind_not_OutOfFuel; [apply read_handle_not_OutOfFuel|].
  intros h2 st2' _.
  apply bind_not_OutOfFuel; [by destruct (negb (destructor h2 =? NULL))|].
  intros [] st3 _.
  apply bind_not_OutOfFuel; [apply read_handle_not_OutOfFuel|].
  intros h3 st3' _.
  apply bind_not_OutOfFuel; [apply deallocate_not_OutOfFuel|].
  intros [] st4 _. apply deallocate_not_OutOfFuel.
Qed.

End Termination.

(** The recursion is bounded on an acyclic graph: with fuel [enough_fuel]
    (the rank of the handle, plus the length of the longest dependency
    list, plus two) or more, a release never runs out of fuel.  It may
    still stop on a fault instead of returning. *)
Lemma dec_ref_terminates_on_acyclic rank st a :
  acyclic rank st = true →
  ∀ fuel, (enough_fuel rank st a ≤ fuel)%nat →
          ∃ r, _rclpy_handle_dec_ref fuel a st = r ∧ r ≠ OutOfFuel.
Proof.
  intros Hacyc fuel Hfuel. eexists. split; [reflexivity|].
  apply (dec_ref_terminates rank (max_dependencies st)).
  - by apply acyclic_ranked.
  - intros a' h Hl. by eapply max_dependencies_bound.
  - exact Hfuel.
Qed.


Lemma dec_ref_terminates_on_acyclic_witness :
  ∃ r, _rclpy_handle_dec_ref 5 16 fan_out = r ∧ r ≠ OutOfFuel.
Proof.
  apply (dec_ref_terminates_on_acyclic fan_out_rank fan_out 16).
  - vm_compute. reflexivity.
  - vm_compute. lia.
Defined.

(** ** Adding a dependency *)

Lemma next_placement_Done d st st' :
  next_placement st = Done d st' → heap st' = heap st ∧ trace st' = trace st.
Proof.
  unfold next_placement. destruct (placements st); intros [= <- <-]; done.
Qed.

Lemma reallocate_Done old size a st st' :
  reallocate old size st = Done a st' →
  ∃ content,
    ((old = NULL ∧ content = []) ∨ (old ≠ NULL ∧ load_array old st = Some content)) ∧
    trace st' = trace st ∧
    ((a = NULL ∧ heap st' = heap st) ∨
     (a ≠ NULL ∧ (a = old ∨ heap st !! a = None) ∧
      heap st' = <[a := BArray (resize (Z.to_nat (size / sizeof_ptr)) NULL content)]>
                   (delete old (heap st)))).
Proof.
  unfold reallocate. intros H.
  apply bind_Done in H as (content & st0 & Hc & H).
  assert (st0 = st ∧ ((old = NULL ∧ content = [])
                      ∨ (old ≠ NULL ∧ load_array old st = Some content))) as [-> Hcontent].
  { destruct (Z.eqb_spec old NULL) as [->|Hne].
    - apply ret_Done in Hc as [<- <-]. auto.
    - destruct (load_array old st) as [l|] eqn:Hl; [|discriminate].
      injection Hc as <- <-. auto. }
  exists content. split; [done|].
  apply bind_Done in H as (d & st1 & Hp & H).
  apply next_placement_Done in Hp as [Hh Ht].
  destruct d as [p|]; [|injection H as <- <-; by auto].
  destruct (Z.eqb_spec p NULL) as [Hp|Hp]; simpl in H; [injection H as <- <-; by auto|].
  destruct ((p =? old) || vacant p st1) eqn:Hok; [|injection H as <- <-; by auto].
  injection H as <- <-. simpl. rewrite Ht, Hh. split; [done|]. right.
  split; [done|]. split; [|done].
  apply orb_true_iff in Hok as [Heq|Hv]; [left; by apply Z.eqb_eq|right].
  unfold vacant in Hv. apply andb_true_iff in Hv as [_ Hv].
  apply bool_decide_eq_true in Hv. by rewrite <- Hh.
Qed.

Lemma write_entry_Done arr i v u st st' :
  write_entry arr i v st = Done u st' →
  ∃ l, load_array arr st = Some l ∧ (Z.to_nat i < length l)%nat ∧
       st' = set_heap <[arr := BArray (<[Z.to_nat i := v]> l)]> st.
Proof.
  unfold write_entry. destruct (load_array arr st) as [l|]; [|discriminate].
  destruct (Nat.ltb_spec (Z.to_nat i) (length l)); [|discriminate].
  intros [= <-]. eauto.
Qed.

Lemma add_dependency_Done_inv A B r st st' :
  _rclpy_handle_add_dependency A B st = Done r st' →
  ∃ hA content new,
    A ≠ NULL ∧ B ≠ NULL ∧ load_handle A st = Some hA ∧
    ((dependencies hA = NULL ∧ content = [])
     ∨ (dependencies hA ≠ A ∧ load_array (dependencies hA) st = Some content)) ∧
    trace st' = trace st ∧
    let hA1 := set_num_of_dependencies (size_wrap (num_of_dependencies hA + 1)) hA in
    ((r = RCUTILS_RET_ERROR ∧ new = NULL ∧
      heap st' = <[A := BHandle hA1]> (heap st))
     ∨
     (r = RCUTILS_RET_OK ∧ new ≠ NULL ∧ new ≠ A ∧ new ≠ B ∧
      (slot_index (num_of_dependencies hA) < capacity (num_of_dependencies hA))%nat ∧
      ∃ hB,
        load_handle B (set_heap <[A := BHandle (set_dependencies new hA1)]> st) = Some hB ∧
        heap st' =
          <[B := BHandle (set_ref_count (size_wrap (ref_count hB + 1)) hB)]>
            (<[A := BHandle (set_dependencies new hA1)]>
               (<[new := BArray (<[slot_index (num_of_dependencies hA) := B]>
                                   (resize (capacity (num_of_dependencies hA)) NULL content))]>
                  (delete (dependencies hA) (heap st)))))).
Proof.
  unfold _rclpy_handle_add_dependency. intros H.
  destruct (Z.eqb_spec A NULL) as [|HA]; [discriminate|].
  destruct (Z.eqb_spec B NULL) as [|HB]; [discriminate|].
  apply bind_Done in H as ([] & st1 & Hu & H).
  apply update_handle_Done in Hu as (hA & HlA & ->).
  apply bind_Done in H as (h1 & st1 & Hr & H).
  apply read_handle_Done in Hr as [-> Hl1].
  apply load_handle_lookup in HlA as HlA'. destruct HlA' as [_ HhA].
  set (hA1 := set_num_of_dependencies (size_wrap (num_of_dependencies hA + 1)) hA) in *.
  assert (h1 = hA1) as ->.
  { apply load_handle_lookup in Hl1 as [_ Hl1]. simpl in Hl1.
    rewrite lookup_insert_eq in Hl1. congruence. }
  apply bind_Done in H as (new & st2 & Hre & H).
  apply reallocate_Done in Hre as (content & Hcontent & Ht2 & Hre).
  simpl in Hcontent, Ht2, Hre.
  exists hA, content, new. split; [done|]. split; [done|]. split; [done|].
  assert ((dependencies hA = NULL ∧ content = [])
          ∨ (dependencies hA ≠ A ∧ load_array (dependencies hA) st = Some content)) as Hc.
  { destruct Hcontent as [?|[Hne Harr]]; [by left|right].
    apply load_array_lookup in Harr as [_ Harr]. simpl in Harr.
    destruct (decide (dependencies hA = A)) as [E|NE].
    - rewrite E, lookup_insert_eq in Harr. discriminate.
    - split; [done|]. rewrite lookup_insert_ne in Harr by done.
      by apply load_array_lookup. }
  split; [exact Hc|].
  destruct (Z.eqb_spec new NULL) as [Hnew|Hnew].
  { apply ret_Done in H as [<- <-]. split; [done|]. left.
    destruct Hre as [[_ ->]|[? _]]; done. }
  destruct Hre as [[? _]|(_ & Hplace & Hh2)]; [done|].
  apply bind_Done in H as (h2 & st2' & Hr & H).
  apply read_handle_Done in Hr as [-> Hl2].
  assert (new ≠ A) as HnewA.
  { intros ->. apply load_handle_lookup in Hl2 as [_ Hl2].
    rewrite Hh2, lookup_insert_eq in Hl2. discriminate. }
  assert (dependencies hA ≠ A) as HoldA.
  { intros E. apply load_handle_lookup in Hl2 as [_ Hl2].
    rewrite Hh2, lookup_insert_ne, E, lookup_delete_eq in Hl2 by done. discriminate. }
  assert (h2 = hA1) as ->.
  { apply load_handle_lookup in Hl2 as [_ Hl2].
    rewrite Hh2, lookup_insert_ne, lookup_delete_ne, lookup_insert_eq in Hl2 by done.
    congruence. }
  apply bind_Done in H as ([] & st3 & Hw & H).
  apply write_entry_Done in Hw as (l & Harr & Hlt & ->).
  assert (l = resize (capacity (num_of_dependencies hA)) NULL content) as ->.
  { apply load_array_lookup in Harr as [_ Harr].
    rewrite Hh2, lookup_insert_eq in Harr. injection Harr as <-. done. }
  rewrite length_resize in Hlt.
  apply bind_Done in H as ([] & st4 & Hu & H).
  apply update_handle_Done in Hu as (h3 & Hl3 & ->).
  assert (h3 = hA1) as ->.
  { apply load_handle_lookup in Hl3 as [_ Hl3]. simpl in Hl3.
    rewrite lookup_insert_ne in Hl3 by done.
    apply load_handle_lookup in Hl2 as [_ Hl2]. congruence. }
  apply bind_Done in H as ([] & st5 & Hu & H).
  apply update_handle_Done in Hu as (hB & HlB & ->).
  apply ret_Done in H as [<- <-]. simpl. split; [done|]. right.
  split; [done|]. split; [done|]. split; [done|].
  assert (new ≠ B) as HnB.
  { intros ->. apply load_handle_lookup in HlB as [_ HlB]. simpl in HlB.
    rewrite lookup_insert_ne, lookup_insert_eq in HlB by done. discriminate. }
  split; [done|]. split; [exact Hlt|].
  exists hB. split.
  - apply load_handle_lookup in HlB as [_ HlB]. simpl in HlB.
    apply load_handle_lookup. split; [done|]. simpl.
    destruct (decide (A = B)) as [<-|HAB].
    + rewrite lookup_insert_eq in HlB |- *. done.
    + rewrite lookup_insert_ne in HlB |- * by done.
      assert (new ≠ B) as HnewB.
      { intros ->. rewrite lookup_insert_eq in HlB. discriminate. }
      rewrite lookup_insert_ne in HlB by done.
      rewrite Hh2, lookup_insert_ne in HlB by done.
      apply lookup_delete_Some in HlB as [_ HlB].
      rewrite lookup_insert_ne in HlB by done. done.
  - rewrite Hh2. apply map_eq. intros a.
    rewrite !lookup_insert, !lookup_delete, !lookup_insert.
    repeat case_decide; try congruence; reflexivity.
Qed.

Lemma slot_fits_nonzero n :
  (slot_index n < capacity n)%nat → size_wrap (n + 1) ≠ 0.
Proof.
  unfold slot_index, capacity. intros Hlt Hz. rewrite Hz in Hlt.
  change (size_wrap (0 * sizeof_ptr) `div` sizeof_ptr) with 0 in Hlt. lia.
Qed.

Lemma slot_fits n :
  0 ≤ n ≤ SIZE_MAX →
  (slot_index n < capacity n)%nat →
  size_wrap (n + 1) = n + 1 ∧ slot_index n = Z.to_nat n ∧ capacity n = S (Z.to_nat n).
Proof.
  intros Hn Hlt.
  destruct (decide (n = 2 ^ 64 - 1)) as [->|Hne].
  { by apply slot_fits_nonzero in Hlt. }
  revert Hn Hlt.
  unfold slot_index, capacity, size_wrap, SIZE_MAX, SIZE_WIDTH, sizeof_ptr.
  intros Hn Hlt.
  rewrite (Z.mod_small (n + 1)) in * by lia.
  replace (n + 1 - 1) with n in * by lia.
  rewrite (Z.mod_small n) in * by lia.
  destruct (decide ((n + 1) * 8 < 2 ^ 64)) as [Hsmall|Hbig].
  - rewrite (Z.mod_small ((n + 1) * 8)) in * by lia.
    rewrite Z.div_mul in * by lia. repeat split; lia.
  - exfalso.
    pose proof (Z.mod_pos_bound ((n + 1) * 8) (2 ^ 64) ltac:(lia)) as Hb.
    assert ((((n + 1) * 8) `mod` 2 ^ 64) `div` 8 < 2 ^ 61) as Hk.
    { apply Z.div_lt_upper_bound; lia. }
    lia.
Qed.

Lemma insert_resize_snoc (l : list addr) (n : nat) (v : addr) :
  (n ≤ length l)%nat → <[n := v]> (resize (S n) NULL l) = take n l ++ [v].
Proof.
  intros Hn. replace (S n) with (n + 1)%nat by lia.
  rewrite resize_add, resize_le by done.
  rewrite insert_app_r_alt by (rewrite length_take; lia).
  rewrite length_take. replace (n - n `min` length l)%nat with 0%nat by lia.
  f_equal. destruct (drop n l) as [|a l0]; [reflexivity|].
  simpl. by rewrite resize_0.
Qed.

(** C5: a successful [_rclpy_handle_add_dependency] on valid handles
    appends the dependency at the end of the dependent's list (a
    dependency already present is recorded once more), adds exactly one to
    the dependency's reference count, and leaves the reference count of a
    dependent other than the dependency as it was. *)
Theorem add_dependency_success A B hA hB st st' :
  load_handle A st = Some hA →
  load_handle B st = Some hB →
  Z.of_nat (length (dependency_entries hA st)) = num_of_dependencies hA →
  num_of_dependencies hA ≤ SIZE_MAX →
  0 ≤ ref_count hB < SIZE_MAX →
  _rclpy_handle_add_dependency A B st = Done RCUTILS_RET_OK st' →
  ∃ hA' hB',
    load_handle A st' = Some hA' ∧ load_handle B st' = Some hB' ∧
    dependency_entries hA' st' = dependency_entries hA st ++ [B] ∧
    num_of_dependencies hA' = num_of_dependencies hA + 1 ∧
    ref_count hB' = ref_count hB + 1 ∧
    (A ≠ B → ref_count hA' = ref_count hA).
Proof.
  intros HlA HlB Hlen Hmax Hrc H.
  apply add_dependency_Done_inv in H
    as (hA0 & content & new & HA & HB & HlA0 & Hcontent & _ & H).
  assert (hA0 = hA) as -> by congruence.
  destruct H as [[[=] _]|(_ & Hnew & HnA & HnB & Hslot & hB0 & HlB0 & Hheap)].
  destruct (slot_fits (num_of_dependencies hA) ltac:(lia) Hslot) as (Hn1 & Hj & Hk).
  rewrite Hn1, Hj, Hk in *.
  set (hA1 := set_dependencies new
                (set_num_of_dependencies (num_of_dependencies hA + 1) hA)) in *.
  assert (ref_count hB0 = ref_count hB ∧
          hB0 = (if decide (A = B) then hA1 else hB)) as [HrcB HhB0].
  { apply load_handle_lookup in HlB0 as [_ HlB0]. simpl in HlB0.
    case_decide as HAB.
    - subst B. rewrite lookup_insert_eq in HlB0. injection HlB0 as <-.
      assert (hB = hA) as -> by congruence. done.
    - rewrite lookup_insert_ne in HlB0 by done.
      apply load_handle_lookup in HlB as [_ HlB]. split; congruence. }
  set (hB' := set_ref_count (size_wrap (ref_count hB0 + 1)) hB0) in *.
  set (arr := <[Z.to_nat (num_of_dependencies hA) := B]>
                (resize (S (Z.to_nat (num_of_dependencies hA))) NULL content)) in *.
  assert (arr = dependency_entries hA st ++ [B]) as Harr.
  { unfold arr, dependency_entries in *. destruct Hcontent as [[Hd ->]|[_ Hl]].
    - rewrite Hd in *. change (load_array NULL st) with (@None (list addr)) in *.
      simpl in Hlen. rewrite <- Hlen. reflexivity.
    - rewrite Hl in *. rewrite length_take in Hlen.
      apply insert_resize_snoc. lia. }
  assert (load_array new st' = Some arr) as Hnew'.
  { apply load_array_lookup. split; [done|].
    rewrite Hheap, !lookup_insert_ne, lookup_insert_eq by done. done. }
  assert (load_handle B st' = Some hB') as HlB'.
  { apply load_handle_lookup. split; [done|]. by rewrite Hheap, lookup_insert_eq. }
  assert (ref_count hB' = ref_count hB + 1) as HrcB'.
  { unfold hB'. simpl. rewrite HrcB. apply size_wrap_small. lia. }
  assert (∀ h, dependencies h = new →
               num_of_dependencies h = num_of_dependencies hA + 1 →
               dependency_entries h st' = dependency_entries hA st ++ [B]) as Hentries.
  { intros h Hd Hn. unfold dependency_entries at 1. rewrite Hd, Hn, Hnew'.
    rewrite take_ge; [done|]. rewrite Harr, length_app. simpl. lia. }
  destruct (decide (A = B)) as [E|HAB].
  - subst B hB0. exists hB', hB'. repeat split; try done.
    by apply Hentries.
  - subst hB0. exists hA1, hB'. split.
    { apply load_handle_lookup. split; [done|].
      rewrite Hheap, lookup_insert_ne, lookup_insert_eq by done. done. }
    repeat split; try done. by apply Hentries.
Qed.

Lemma add_dependency_success_witness :
  ∃ st', _rclpy_handle_add_dependency 16 32 (two_handles [Some 48])
         = Done RCUTILS_RET_OK st' ∧
  ∃ hA' hB',
    load_handle 16 st' = Some hA' ∧ load_handle 32 st' = Some hB' ∧
    dependency_entries hA' st'
    = dependency_entries (mk_handle 100 1 NULL 0 7) (two_handles [Some 48]) ++ [32] ∧
    num_of_dependencies hA' = num_of_dependencies (mk_handle 100 1 NULL 0 7) + 1 ∧
    ref_count hB' = ref_count (mk_handle 200 1 NULL 0 8) + 1 ∧
    (16 ≠ 32 → ref_count hA' = ref_count (mk_handle 100 1 NULL 0 7)).
Proof.
  eexists. split.
  - vm_compute. reflexivity.
  - apply (add_dependency_success 16 32 (mk_handle 100 1 NULL 0 7)
             (mk_handle 200 1 NULL 0 8) (two_handles [Some 48])).
    + vm_compute. reflexivity.
    + vm_compute. reflexivity.
    + vm_compute. reflexivity.
    + vm_compute. discriminate.
    + unfold SIZE_MAX, SIZE_WIDTH. simpl. lia.
    + vm_compute. reflexivity.
Defined.

(** On an allocation failure the call has already counted the new entry:
    the dependent keeps its list but records one more element. *)
Lemma add_dependency_error_state A B st st' :
  _rclpy_handle_add_dependency A B st = Done RCUTILS_RET_ERROR st' →
  ∃ hA, load_handle A st = Some hA ∧
        heap st' = <[A := BHandle (set_num_of_dependencies
                                     (size_wrap (num_of_dependencies hA + 1)) hA)]>
                     (heap st) ∧
        trace st' = trace st.
Proof.
  intros H. apply add_dependency_Done_inv in H
    as (hA & content & new & _ & _ & HlA & _ & Ht & H).
  exists hA. split; [done|]. destruct H as [(_ & _ & Hh)|[[=] _]]. done.
Qed.

(** C4, evaluated: a failed reallocation leaves the dependency and the
    dependent's list pointer alone, but the dependent's recorded length
    has gone from 0 to 1; the record now breaks the assertion of
    [_rclpy_handle_dec_ref], which stops on it. *)
Theorem add_dependency_failure_changes_length :
  ∃ st', _rclpy_handle_add_dependency 16 32 (two_handles [None])
         = Done RCUTILS_RET_ERROR st' ∧
         load_handle 16 (two_handles [None]) = Some (mk_handle 100 1 NULL 0 7) ∧
         load_handle 16 st' = Some (mk_handle 100 1 NULL 1 7) ∧
         load_handle 32 st' = load_handle 32 (two_handles [None]) ∧
         deps_invariant (mk_handle 100 1 NULL 1 7) = false ∧
         _rclpy_handle_dec_ref 2 16 st' = Fault AssertionFailed.
Proof.
  eexists. split; [vm_compute; reflexivity|]. vm_compute. done.
Qed.

Lemma deps_invariant_set_ref_count v h :
  deps_invariant (set_ref_count v h) = deps_invariant h.
Proof. reflexivity. Qed.

(** C10: the handle a successful [_rclpy_create_handle] returns, and the
    dependent after a successful [_rclpy_handle_add_dependency], satisfy
    the condition asserted at the top of [_rclpy_handle_dec_ref]
    ([dependencies] is null exactly when [num_of_dependencies] is zero);
    every other handle present after the call, the dependency among them,
    was present before it and satisfies the condition if it did then. *)
Theorem deps_invariant_established a st st' :
  (∃ p dtor, _rclpy_create_handle p dtor st = Done a st' ∧ a ≠ NULL) ∨
  (∃ B, _rclpy_handle_add_dependency a B st = Done RCUTILS_RET_OK st') →
  (∃ h, load_handle a st' = Some h ∧ deps_invariant h = true) ∧
  (∀ x hx', x ≠ a → load_handle x st' = Some hx' →
            ∃ hx, load_handle x st = Some hx ∧ deps_invariant hx' = deps_invariant hx).
Proof.
  intros [(p & dtor & H & Ha)|(B & H)].
  - apply create_handle_Done in H as [[? _]|(_ & _ & Hh & _)]; [done|]. split.
    + exists (mk_handle p 1 NULL 0 dtor). split; [|reflexivity].
      apply load_handle_lookup. split; [done|]. rewrite Hh. apply lookup_insert_eq.
    + intros x hx' Hx [Hx0 Hl]%load_handle_lookup.
      rewrite Hh, lookup_insert_ne in Hl by done.
      exists hx'. split; [by apply load_handle_lookup | reflexivity].
  - rename a into A.
    apply add_dependency_Done_inv in H
      as (hA & content & new & HA & HB & HlA & _ & _ & H).
    destruct H as [[[=] _]|(_ & Hnew & HnA & HnB & Hslot & hB0 & HlB0 & Hheap)].
    apply slot_fits_nonzero in Hslot.
    set (hA1 := set_dependencies new
                  (set_num_of_dependencies
                     (size_wrap (num_of_dependencies hA + 1)) hA)) in *.
    assert (deps_invariant hA1 = true) as HinvA.
    { unfold deps_invariant, hA1. simpl.
      apply Z.eqb_neq in Hslot, Hnew. rewrite Hslot, Hnew. reflexivity. }
    apply load_handle_lookup in HlB0 as [_ HlB0]. simpl in HlB0.
    split.
    + destruct (decide (A = B)) as [<-|HAB].
      * rewrite lookup_insert_eq in HlB0. injection HlB0 as <-.
        eexists. split.
        -- apply load_handle_lookup. split; [done|]. rewrite Hheap. apply lookup_insert_eq.
        -- rewrite deps_invariant_set_ref_count. done.
      * exists hA1. split; [|done]. apply load_handle_lookup. split; [done|].
        rewrite Hheap, lookup_insert_ne, lookup_insert_eq by done. done.
    + intros a h' HaA [Ha Hl']%load_handle_lookup.
      rewrite Hheap in Hl'. destruct (decide (a = B)) as [->|HaB].
      * rewrite lookup_insert_eq in Hl'. injection Hl' as <-.
        rewrite lookup_insert_ne in HlB0 by done.
        exists hB0. split; [by apply load_handle_lookup | reflexivity].
      * rewrite !lookup_insert_ne in Hl' by done.
        destruct (decide (a = new)) as [->|Han].
        { rewrite lookup_insert_eq in Hl'. discriminate. }
        rewrite lookup_insert_ne in Hl' by done.
        apply lookup_delete_Some in Hl' as [_ Hl'].
        exists h'. split; [by apply load_handle_lookup | reflexivity].
Qed.

Lemma deps_invariant_established_witness :
  ∃ st1 st2,
    _rclpy_create_handle 100 7 (empty_state [Some 16]) = Done 16 st1 ∧
    _rclpy_handle_add_dependency 16 32 (two_handles [Some 48])
    = Done RCUTILS_RET_OK st2 ∧
    ((∃ h, load_handle 16 st1 = Some h ∧ deps_invariant h = true) ∧
     (∀ x hx', x ≠ 16 → load_handle x st1 = Some hx' →
               ∃ hx, load_handle x (empty_state [Some 16]) = Some hx ∧
                     deps_invariant hx' = deps_invariant hx)) ∧
    ((∃ h, load_handle 16 st2 = Some h ∧ deps_invariant h = true) ∧
     (∀ x hx', x ≠ 16 → load_handle x st2 = Some hx' →
               ∃ hx, load_handle x (two_handles [Some 48]) = Some hx ∧
                     deps_invariant hx' = deps_invariant hx)).
Proof.
  eexists. eexists.
  split; [vm_compute; reflexivity|]. split; [vm_compute; reflexivity|].
  split.
  - apply (deps_invariant_established 16 (empty_state [Some 16])).
    left. exists 100, 7. split; [vm_compute; reflexivity | unfold NULL; lia].
  - apply (deps_invariant_established 16 (two_handles [Some 48])).
    right. exists 32. vm_compute. reflexivity.
Defined.

(** * Further properties of the core *)

(** ** Running the operations forward *)

Lemma bind_eq {A B} (m : M A) (k : A → M B) st a st1 :
  m st = Done a st1 → bind m k st = k a st1.
Proof. unfold bind. by intros ->. Qed.

Lemma read_handle_eq a h st : load_handle a st = Some h → read_handle a st = Done h st.
Proof. unfold read_handle. by intros ->. Qed.

Lemma update_handle_eq a f h st :
  load_handle a st = Some h →
  update_handle a f st = Done tt (set_heap <[a := BHandle (f h)]> st).
Proof. intros Hl. apply update_handle_Done. eauto. Qed.

Lemma dec_ref_unfold fuel a :
  _rclpy_handle_dec_ref (S fuel) a =
  (if a =? NULL then ret tt else
   do h <~ read_handle a;
   if negb (deps_invariant h) then raise AssertionFailed else
   run update_handle a (λ h, set_ref_count (size_wrap (ref_count h - 1)) h);
   do h <~ read_handle a;
   if negb (ref_count h =? 0) then
     run release_loop fuel (_rclpy_handle_dec_ref fuel) a 0;
     do h <~ read_handle a;
     run (if negb (destructor h =? NULL)
          then call_destructor (destructor h) (ptr h) else ret tt);
     do h <~ read_handle a;
     run deallocate (dependencies h);
     deallocate a
   else ret tt).
Proof. reflexivity. Qed.

Lemma release_loop_unfold n call a i :
  release_loop (S n) call a i =
  (do h <~ read_handle a;
   if i <? num_of_dependencies h then
     do d <~ read_entry (dependencies h) i;
     run call d;
     release_loop n call a (size_wrap (i + 1))
   else ret tt).
Proof. reflexivity. Qed.

Lemma deallocate_eq p b st :
  p ≠ NULL → heap st !! p = Some b →
  deallocate p st = Done tt (set_heap (delete p) (emit (EvDeallocate p) st)).
Proof.
  intros Hp Hb. unfold deallocate, bind, modify. apply Z.eqb_neq in Hp as ->.
  simpl. by rewrite Hb.
Qed.

(** The tail of a teardown, after the loop: destructor, then the two
    deallocations. *)
Lemma teardown_tail a h st :
  load_handle a st = Some h →
  (dependencies h = NULL ∨ is_Some (heap st !! dependencies h)) →
  dependencies h ≠ a →
  (do h <~ read_handle a;
   run (if negb (destructor h =? NULL)
        then call_destructor (destructor h) (ptr h) else ret tt);
   do h <~ read_handle a;
   run deallocate (dependencies h);
   deallocate a) st
  = Done tt (mk_state
               (delete a (if dependencies h =? NULL then heap st
                          else delete (dependencies h) (heap st)))
               (placements st)
               (trace st ++ destructor_events h
                  ++ [EvDeallocate (dependencies h); EvDeallocate a])).
Proof.
  intros Hl Hdeps Hne. apply load_handle_lookup in Hl as Hl'. destruct Hl' as [Ha Hh].
  rewrite (bind_eq _ _ _ _ _ (read_handle_eq _ _ _ Hl)).
  set (st1 := if destructor h =? NULL then st
              else emit (EvDestructor (destructor h) (ptr h)) st).
  assert (heap st1 = heap st ∧ placements st1 = placements st ∧
          trace st1 = trace st ++ destructor_events h) as (Hh1 & Hp1 & Ht1).
  { unfold st1, destructor_events. destruct (destructor h =? NULL); simpl;
      by rewrite ?app_nil_r. }
  rewrite (bind_eq _ _ st tt st1)
    by (unfold st1; by destruct (destructor h =? NULL)).
  assert (load_handle a st1 = Some h) as Hl1.
  { apply load_handle_lookup. by rewrite Hh1. }
  rewrite (bind_eq _ _ _ _ _ (read_handle_eq _ _ _ Hl1)).
  destruct (Z.eqb_spec (dependencies h) NULL) as [Hd|Hd].
  - rewrite Hd. rewrite (bind_eq _ _ _ _ _ (deallocate_NULL st1)).
    rewrite (deallocate_eq a (BHandle h)) by (simpl; by rewrite ?Hh1).
    unfold set_heap, emit. simpl. rewrite Hh1, Hp1, Ht1, <- !app_assoc. reflexivity.
  - destruct Hdeps as [?|[b Hb]]; [done|].
    rewrite (bind_eq _ _ _ _ _ (deallocate_eq (dependencies h) b st1 Hd ltac:(by rewrite Hh1))).
    rewrite (deallocate_eq a (BHandle h))
      by (simpl; by rewrite ?Hh1, ?lookup_delete_ne).
    unfold set_heap, emit. simpl. rewrite Hh1, Hp1, Ht1, <- !app_assoc. reflexivity.
Qed.

Lemma dec_ref_leaf fuel a h st :
  load_handle a st = Some h →
  num_of_dependencies h = 0 →
  dependencies h = NULL →
  size_wrap (ref_count h - 1) ≠ 0 →
  _rclpy_handle_dec_ref (S (S fuel)) a st
  = Done tt (mk_state (delete a (heap st)) (placements st)
               (trace st ++ destructor_events h
                  ++ [EvDeallocate NULL; EvDeallocate a])).
Proof.
  intros Hl Hn Hd Hnz. apply load_handle_lookup in Hl as Hl'. destruct Hl' as [Ha Hh].
  rewrite dec_ref_unfold. apply Z.eqb_neq in Ha as Hb. rewrite Hb.
  rewrite (bind_eq _ _ _ _ _ (read_handle_eq _ _ _ Hl)).
  assert (deps_invariant h = true) as ->.
  { unfold deps_invariant. rewrite Hn, Hd. reflexivity. }
  cbn [negb].
  rewrite (bind_eq _ _ _ _ _ (update_handle_eq _ _ _ _ Hl)).
  fold (decremented a h st).
  pose proof (load_handle_decremented a h st Ha) as Hl1.
  rewrite (bind_eq _ _ _ _ _ (read_handle_eq _ _ _ Hl1)).
  cbn [ref_count set_ref_count]. apply Z.eqb_neq in Hnz as ->. cbn [negb].
  rewrite release_loop_unfold.
  assert ((do h0 <~ read_handle a;
           if 0 <? num_of_dependencies h0
           then do d <~ read_entry (dependencies h0) 0;
                run _rclpy_handle_dec_ref (S fuel) d;
                release_loop fuel (_rclpy_handle_dec_ref (S fuel)) a (size_wrap (0 + 1))
           else ret tt) (decremented a h st) = Done tt (decremented a h st)) as Hloop.
  { rewrite (bind_eq _ _ _ _ _ (read_handle_eq _ _ _ Hl1)). simpl. by rewrite Hn. }
  rewrite (bind_eq _ _ _ _ _ Hloop).
  rewrite (teardown_tail a _ _ Hl1); simpl; [|left; done|congruence].
  rewrite Hd. simpl. rewrite delete_insert_eq. reflexivity.
Qed.

(** X1: releasing a handle without dependencies whose decremented count
    is not zero always completes, and its whole effect is: the destructor
    call (when there is a destructor), [deallocate(NULL)] for the absent
    dependency storage, and the deallocation of the record. *)
Theorem dec_ref_leaf_teardown fuel a h st :
  load_handle a st = Some h →
  num_of_dependencies h = 0 →
  dependencies h = NULL →
  size_wrap (ref_count h - 1) ≠ 0 →
  _rclpy_handle_dec_ref (S (S fuel)) a st
  = Done tt (mk_state (delete a (heap st)) (placements st)
               (trace st ++ destructor_events h
                  ++ [EvDeallocate NULL; EvDeallocate a])).
Proof. apply dec_ref_leaf. Qed.

Lemma dec_ref_leaf_teardown_witness :
  _rclpy_handle_dec_ref 2 16 (lone_handle 5)
  = Done tt (mk_state (delete 16 (heap (lone_handle 5))) (placements (lone_handle 5))
               (trace (lone_handle 5) ++ destructor_events (mk_handle 100 5 NULL 0 7)
                  ++ [EvDeallocate NULL; EvDeallocate 16])).
Proof.
  apply (dec_ref_leaf_teardown 0 16 (mk_handle 100 5 NULL 0 7) (lone_handle 5)).
  - vm_compute. reflexivity.
  - reflexivity.
  - reflexivity.
  - vm_compute. discriminate.
Defined.

(** X2: a handle without dependencies that holds its last reference
    survives the first release with count 0; a second release makes the
    count wrap to [SIZE_MAX] and tears the handle down.  Two releases in
    a row therefore always end with the destructor called once and the
    record deallocated. *)
Theorem dec_ref_twice_tears_down fuel a h st :
  load_handle a st = Some h →
  num_of_dependencies h = 0 →
  dependencies h = NULL →
  ref_count h = 1 →
  (run _rclpy_handle_dec_ref (S (S fuel)) a;
   _rclpy_handle_dec_ref (S (S fuel)) a) st
  = Done tt (mk_state (delete a (heap st)) (placements st)
               (trace st ++ destructor_events h
                  ++ [EvDeallocate NULL; EvDeallocate a])).
Proof.
  intros Hl Hn Hd Hrc. apply load_handle_lookup in Hl as Hl'. destruct Hl' as [Ha Hh].
  assert (deps_invariant h = true) as Hinv.
  { unfold deps_invariant. rewrite Hn, Hd. reflexivity. }
  assert (size_wrap (ref_count h - 1) = 0) as Hz by (rewrite Hrc; reflexivity).
  rewrite (bind_eq _ _ _ _ _ (dec_ref_reaches_zero (S fuel) a h st Hl Hinv Hz)).
  rewrite (dec_ref_leaf fuel a _ _ (load_handle_decremented a h st Ha)).
  - simpl. rewrite delete_insert_eq. reflexivity.
  - exact Hn.
  - exact Hd.
  - simpl. rewrite Hz. vm_compute. discriminate.
Qed.

Lemma dec_ref_twice_tears_down_witness :
  (run _rclpy_handle_dec_ref 2 16; _rclpy_handle_dec_ref 2 16) (lone_handle 1)
  = Done tt (mk_state (delete 16 (heap (lone_handle 1))) (placements (lone_handle 1))
               (trace (lone_handle 1) ++ destructor_events (mk_handle 100 1 NULL 0 7)
                  ++ [EvDeallocate NULL; EvDeallocate 16])).
Proof.
  apply (dec_ref_twice_tears_down 0 16 (mk_handle 100 1 NULL 0 7) (lone_handle 1));
    reflexivity.
Defined.

(** X3: a release that completes creates no block and takes nothing from
    the allocator; it only appends events, and every handle or dependency
    array that is still there afterwards was there before, with the same
    resource pointer, destructor and dependency list (only reference
    counts change). *)
Theorem dec_ref_preserves_survivors fuel a st st' :
  _rclpy_handle_dec_ref fuel a st = Done tt st' →
  placements st' = placements st ∧
  (∃ evs, trace st' = trace st ++ evs) ∧
  (∀ x h', load_handle x st' = Some h' →
           ∃ h, load_handle x st = Some h ∧
                ptr h = ptr h' ∧ destructor h = destructor h' ∧
                dependencies h = dependencies h' ∧
                num_of_dependencies h = num_of_dependencies h') ∧
  (∀ x l, load_array x st' = Some l → load_array x st = Some l).
Proof.
  intros H. apply dec_ref_evolves in H. pose proof H as (Ht & Hp & _).
  split; [done|]. split; [done|]. split.
  - intros x h' Hl'.
    destruct (evolves_load_handle _ _ _ _ H Hl') as (h & Hl & ? & ? & ? & ?).
    exists h. done.
  - intros x l. apply evolves_load_array. done.
Qed.

Lemma dec_ref_preserves_survivors_witness :
  ∃ st', _rclpy_handle_dec_ref 4 16 fan_out = Done tt st' ∧
  placements st' = placements fan_out ∧
  (∃ evs, trace st' = trace fan_out ++ evs) ∧
  (∀ x h', load_handle x st' = Some h' →
           ∃ h, load_handle x fan_out = Some h ∧
                ptr h = ptr h' ∧ destructor h = destructor h' ∧
                dependencies h = dependencies h' ∧
                num_of_dependencies h = num_of_dependencies h') ∧
  (∀ x l, load_array x st' = Some l → load_array x fan_out = Some l).
Proof.
  eexists. split.
  - vm_compute. reflexivity.
  - apply (dec_ref_preserves_survivors 4 16 fan_out). vm_compute. reflexivity.
Defined.

(** ** More fuel does not change an outcome *)

Lemma bind_stable {A B} (m m' : M A) (k k' : A → M B) st r :
  (∀ x, m st = x → x ≠ OutOfFuel → m' st = x) →
  (∀ a s y, k a s = y → y ≠ OutOfFuel → k' a s = y) →
  bind m k st = r → r ≠ OutOfFuel → bind m' k' st = r.
Proof.
  intros Hm Hk H Hr. unfold bind in *.
  destruct (m st) as [a st1|f|] eqn:Em.
  - rewrite (Hm _ eq_refl) by done. by apply Hk.
  - rewrite (Hm _ eq_refl) by done. done.
  - congruence.
Qed.

Lemma release_loop_mono n :
  ∀ n' call call' a i st r,
    (∀ d s y, call d s = y → y ≠ OutOfFuel → call' d s = y) →
    (n ≤ n')%nat →
    release_loop n call a i st = r → r ≠ OutOfFuel →
    release_loop n' call' a i st = r.
Proof.
  induction n as [|n IH]; intros n' call call' a i st r Hcall Hle H Hr.
  { simpl in H. congruence. }
  destruct n' as [|n']; [lia|].
  rewrite release_loop_unfold in *.
  eapply bind_stable; [| |exact H|exact Hr]; [by intros ? -> _|].
  intros h s y Hy Hny. cbv beta in Hy |- *.
  destruct (i <? num_of_dependencies h); [|exact Hy].
  eapply bind_stable; [| |exact Hy|exact Hny]; [by intros ? -> _|].
  intros d s1 y1 Hy1 Hny1. cbv beta in Hy1 |- *.
  eapply bind_stable; [| |exact Hy1|exact Hny1]; [intros x Hx Hnx; by apply Hcall|].
  intros [] s2 y2 Hy2 Hny2. cbv beta in Hy2 |- *.
  eapply IH; [exact Hcall|lia|exact Hy2|exact Hny2].
Qed.

Lemma dec_ref_mono fuel :
  ∀ fuel' a st r,
    (fuel ≤ fuel')%nat →
    _rclpy_handle_dec_ref fuel a st = r → r ≠ OutOfFuel →
    _rclpy_handle_dec_ref fuel' a st = r.
Proof.
  induction fuel as [|fuel IH]; intros fuel' a st r Hle H Hr.
  { simpl in H. congruence. }
  destruct fuel' as [|fuel']; [lia|].
  rewrite dec_ref_unfold in *.
  destruct (a =? NULL); [exact H|].
  eapply bind_stable; [| |exact H|exact Hr]; [by intros ? -> _|].
  intros h s y Hy Hny. cbv beta in Hy |- *.
  destruct (negb (deps_invariant h)); [exact Hy|].
  eapply bind_stable; [| |exact Hy|exact Hny]; [by intros ? -> _|].
  intros [] s1 y1 Hy1 Hny1. cbv beta in Hy1 |- *.
  eapply bind_stable; [| |exact Hy1|exact Hny1]; [by intros ? -> _|].
  intros h1 s2 y2 Hy2 Hny2. cbv beta in Hy2 |- *.
  destruct (negb (ref_count h1 =? 0)); [|exact Hy2].
  eapply bind_stable; [| |exact Hy2|exact Hny2].
  - intros x Hx Hnx.
    eapply (release_loop_mono fuel fuel'); [|lia|exact Hx|exact Hnx].
    intros d s3 y3 Hy3 Hny3. eapply IH; [lia|exact Hy3|exact Hny3].
  - intros [] s3 y3 Hy3 _. cbv beta in Hy3 |- *. exact Hy3.
Qed.

(** C9, evaluated: on the acyclic graph [shared_duplicate] builds, the
    release of the handle at 16 does not complete.  Its count goes from 2
    to 1, the teardown runs, the release along the first of the two edges
    to 32 takes that count from 3 to 2 and, the guard being what it is,
    frees the record; the release along the second edge then reads the
    freed record.  With fuel 3 or more the outcome is that fault, and with
    no amount of fuel does the call return. *)
Theorem dec_ref_shared_duplicate_faults :
  shared_duplicate shared_duplicate_start = Done tt shared_duplicate_state ∧
  acyclic shared_duplicate_rank shared_duplicate_state = true ∧
  (∃ st1, _rclpy_handle_dec_ref 2 32
            (decremented 16 (mk_handle 100 2 80 2 7) shared_duplicate_state)
          = Done tt st1 ∧
          load_handle 32 shared_duplicate_state = Some (mk_handle 200 3 NULL 0 8) ∧
          load_handle 32 st1 = None) ∧
  (∀ fuel, (3 ≤ fuel)%nat →
           _rclpy_handle_dec_ref fuel 16 shared_duplicate_state = Fault InvalidAccess) ∧
  (∀ fuel st', _rclpy_handle_dec_ref fuel 16 shared_duplicate_state ≠ Done tt st').
Proof.
  assert (∀ fuel, (3 ≤ fuel)%nat →
                  _rclpy_handle_dec_ref fuel 16 shared_duplicate_state
                  = Fault InvalidAccess) as Hfault.
  { intros fuel Hle. apply (dec_ref_mono 3 fuel); [exact Hle | | discriminate].
    vm_compute. reflexivity. }
  split; [vm_compute; reflexivity|].
  split; [vm_compute; reflexivity|].
  split; [eexists; split; [vm_compute; reflexivity | split; vm_compute; reflexivity]|].
  split; [exact Hfault|].
  intros fuel st' H. destruct (le_lt_dec 3 fuel) as [Hle|Hlt].
  - rewrite (Hfault fuel Hle) in H. discriminate.
  - destruct fuel as [|[|[|fuel]]]; try lia; vm_compute in H; discriminate.
Qed.

(** ** A dependent with one dependency *)

Lemma dec_ref_one_dependency fuel A B hA l st stB :
  load_handle A st = Some hA →
  num_of_dependencies hA = 1 →
  load_array (dependencies hA) st = Some (B :: l) →
  size_wrap (ref_count hA - 1) ≠ 0 →
  _rclpy_handle_dec_ref (S (S fuel)) B (decremented A hA st) = Done tt stB →
  load_handle A stB = Some (set_ref_count (size_wrap (ref_count hA - 1)) hA) →
  is_Some (heap stB !! dependencies hA) →
  _rclpy_handle_dec_ref (S (S (S fuel))) A st
  = Done tt (mk_state (delete A (delete (dependencies hA) (heap stB)))
               (placements stB)
               (trace stB ++ destructor_events hA
                  ++ [EvDeallocate (dependencies hA); EvDeallocate A])).
Proof.
  intros HlA Hn Harr Hnz HB HlA' Hdeps.
  apply load_handle_lookup in HlA as HlA0. destruct HlA0 as [HA HhA].
  apply load_array_lookup in Harr as Harr0. destruct Harr0 as [Hd Hhd].
  assert (dependencies hA ≠ A) as HdA by congruence.
  rewrite dec_ref_unfold. apply Z.eqb_neq in HA as Hb. rewrite Hb.
  rewrite (bind_eq _ _ _ _ _ (read_handle_eq _ _ _ HlA)).
  assert (deps_invariant hA = true) as ->.
  { unfold deps_invariant. rewrite Hn. apply Z.eqb_neq in Hd as ->. reflexivity. }
  cbn [negb].
  rewrite (bind_eq _ _ _ _ _ (update_handle_eq _ _ _ _ HlA)).
  fold (decremented A hA st).
  pose proof (load_handle_decremented A hA st HA) as Hl1.
  rewrite (bind_eq _ _ _ _ _ (read_handle_eq _ _ _ Hl1)).
  cbn [ref_count set_ref_count]. apply Z.eqb_neq in Hnz as ->. cbn [negb].
  assert (release_loop (S (S fuel)) (_rclpy_handle_dec_ref (S (S fuel))) A 0
            (decremented A hA st) = Done tt stB) as Hloop.
  { rewrite release_loop_unfold.
    rewrite (bind_eq _ _ _ _ _ (read_handle_eq _ _ _ Hl1)).
    cbn [num_of_dependencies set_ref_count dependencies]. rewrite Hn. cbn [Z.ltb Z.compare].
    assert (read_entry (dependencies hA) 0 (decremented A hA st)
            = Done B (decremented A hA st)) as Hentry.
    { unfold read_entry.
      assert (load_array (dependencies hA) (decremented A hA st) = Some (B :: l)) as ->.
      { apply load_array_lookup. split; [done|]. simpl.
        by rewrite lookup_insert_ne. }
      reflexivity. }
    rewrite (bind_eq _ _ _ _ _ Hentry).
    rewrite (bind_eq _ _ _ _ _ HB).
    rewrite release_loop_unfold.
    rewrite (bind_eq _ _ _ _ _ (read_handle_eq _ _ _ HlA')).
    cbn [num_of_dependencies set_ref_count]. rewrite Hn. reflexivity. }
  rewrite (bind_eq _ _ _ _ _ Hloop).
  rewrite (teardown_tail A _ _ HlA'); cbn [dependencies set_ref_count];
    [|by right|done].
  apply Z.eqb_neq in Hd as ->. reflexivity.
Qed.

(** X4: when a dependent whose only dependency is a handle without
    dependencies is torn down, and the dependency's decremented count is
    not zero either, the dependency is destroyed first: its destructor and
    deallocation come before the dependent's own destructor runs. *)
Theorem dec_ref_dependency_destroyed_first fuel A B hA hB st :
  A ≠ B →
  load_handle A st = Some hA →
  num_of_dependencies hA = 1 →
  load_array (dependencies hA) st = Some [B] →
  size_wrap (ref_count hA - 1) ≠ 0 →
  load_handle B st = Some hB →
  num_of_dependencies hB = 0 →
  dependencies hB = NULL →
  size_wrap (ref_count hB - 1) ≠ 0 →
  ∃ st', _rclpy_handle_dec_ref (S (S (S fuel))) A st = Done tt st' ∧
         trace st' = trace st
                     ++ (destructor_events hB ++ [EvDeallocate NULL; EvDeallocate B])
                     ++ (destructor_events hA
                         ++ [EvDeallocate (dependencies hA); EvDeallocate A]) ∧
         load_handle A st' = None ∧ load_handle B st' = None ∧
         load_array (dependencies hA) st' = None.
Proof.
  intros HAB HlA HnA Harr HnzA HlB HnB HdB HnzB.
  apply load_handle_lookup in HlA as HlA0. destruct HlA0 as [HA HhA].
  apply load_handle_lookup in HlB as HlB0. destruct HlB0 as [HB HhB].
  apply load_array_lookup in Harr as Harr0. destruct Harr0 as [Hd Hhd].
  assert (load_handle B (decremented A hA st) = Some hB) as HlB1.
  { apply load_handle_lookup. split; [done|]. simpl. by rewrite lookup_insert_ne. }
  pose proof (dec_ref_leaf fuel B hB _ HlB1 HnB HdB HnzB) as Hrel.
  eexists. split.
  - eapply dec_ref_one_dependency; try eassumption.
    + apply load_handle_lookup. split; [done|]. simpl.
      rewrite lookup_delete_ne, lookup_insert_eq by done. done.
    + simpl. rewrite lookup_delete_ne, lookup_insert_ne by congruence. eauto.
  - simpl. split; [by rewrite <- !app_assoc|].
    unfold load_handle, load_array, load_block. simpl.
    rewrite lookup_delete_eq.
    rewrite (lookup_delete_ne _ A B), (lookup_delete_ne _ (dependencies hA) B) by congruence.
    rewrite lookup_delete_eq.
    assert (delete A (delete (dependencies hA)
              (delete B (<[A:=BHandle (set_ref_count (size_wrap (ref_count hA - 1)) hA)]>
                           (heap st)))) !! dependencies hA = None) as ->.
    { rewrite lookup_delete_ne by congruence. apply lookup_delete_eq. }
    by repeat destruct (_ =? NULL).
Qed.

Lemma dec_ref_dependency_destroyed_first_witness :
  ∃ st', _rclpy_handle_dec_ref 3 16 (chain 2 2) = Done tt st' ∧
         trace st' = trace (chain 2 2)
                     ++ (destructor_events (mk_handle 200 2 NULL 0 8)
                         ++ [EvDeallocate NULL; EvDeallocate 32])
                     ++ (destructor_events (mk_handle 100 2 48 1 7)
                         ++ [EvDeallocate (dependencies (mk_handle 100 2 48 1 7));
                             EvDeallocate 16]) ∧
         load_handle 16 st' = None ∧ load_handle 32 st' = None ∧
         load_array (dependencies (mk_handle 100 2 48 1 7)) st' = None.
Proof.
  apply (dec_ref_dependency_destroyed_first 0 16 32 (mk_handle 100 2 48 1 7)
           (mk_handle 200 2 NULL 0 8) (chain 2 2)).
  - lia.
  - vm_compute. reflexivity.
  - reflexivity.
  - vm_compute. reflexivity.
  - vm_compute. discriminate.
  - vm_compute. reflexivity.
  - reflexivity.
  - reflexivity.
  - vm_compute. discriminate.
Defined.

(** X5: when a dependent with a single dependency is torn down and the
    dependency's count drops to zero, the dependency is not destroyed: it
    stays in the heap with count 0 and only the dependent's destructor and
    deallocations are recorded. *)
Theorem dec_ref_dependency_left_at_zero fuel A B hA hB st :
  A ≠ B →
  load_handle A st = Some hA →
  num_of_dependencies hA = 1 →
  load_array (dependencies hA) st = Some [B] →
  size_wrap (ref_count hA - 1) ≠ 0 →
  load_handle B st = Some hB →
  deps_invariant hB = true →
  size_wrap (ref_count hB - 1) = 0 →
  ∃ st', _rclpy_handle_dec_ref (S (S (S fuel))) A st = Done tt st' ∧
         trace st' = trace st ++ destructor_events hA
                     ++ [EvDeallocate (dependencies hA); EvDeallocate A] ∧
         load_handle A st' = None ∧
         load_handle B st' = Some (set_ref_count 0 hB).
Proof.
  intros HAB HlA HnA Harr HnzA HlB HinvB HzB.
  apply load_handle_lookup in HlA as HlA0. destruct HlA0 as [HA HhA].
  apply load_handle_lookup in HlB as HlB0. destruct HlB0 as [HB HhB].
  apply load_array_lookup in Harr as Harr0. destruct Harr0 as [Hd Hhd].
  assert (load_handle B (decremented A hA st) = Some hB) as HlB1.
  { apply load_handle_lookup. split; [done|]. simpl. by rewrite lookup_insert_ne. }
  pose proof (dec_ref_reaches_zero (S fuel) B hB _ HlB1 HinvB HzB) as Hrel.
  eexists. split.
  - eapply dec_ref_one_dependency; try eassumption.
    + apply load_handle_lookup. split; [done|]. simpl.
      rewrite lookup_insert_ne, lookup_insert_eq by done. done.
    + simpl. rewrite !lookup_insert_ne by congruence. eauto.
  - simpl. split; [done|].
    unfold load_handle, load_block. simpl.
    rewrite lookup_delete_eq.
    rewrite !lookup_delete_ne, lookup_insert_eq by congruence.
    rewrite HzB. apply Z.eqb_neq in HB as ->. by destruct (A =? NULL).
Qed.

Lemma dec_ref_dependency_left_at_zero_witness :
  ∃ st', _rclpy_handle_dec_ref 3 16 (chain 2 1) = Done tt st' ∧
         trace st' = trace (chain 2 1) ++ destructor_events (mk_handle 100 2 48 1 7)
                     ++ [EvDeallocate (dependencies (mk_handle 100 2 48 1 7));
                         EvDeallocate 16] ∧
         load_handle 16 st' = None ∧
         load_handle 32 st' = Some (set_ref_count 0 (mk_handle 200 1 NULL 0 8)).
Proof.
  apply (dec_ref_dependency_left_at_zero 0 16 32 (mk_handle 100 2 48 1 7)
           (mk_handle 200 1 NULL 0 8) (chain 2 1)).
  - lia.
  - vm_compute. reflexivity.
  - reflexivity.
  - vm_compute. reflexivity.
  - vm_compute. discriminate.
  - vm_compute. reflexivity.
  - reflexivity.
  - reflexivity.
Defined.

(** ** More on adding dependencies *)

Lemma add_dependency_appends A B hA hB st st' :
  load_handle A st = Some hA →
  load_handle B st = Some hB →
  Z.of_nat (length (dependency_entries hA st)) = num_of_dependencies hA →
  num_of_dependencies hA ≤ SIZE_MAX →
  0 ≤ ref_count hB < SIZE_MAX →
  _rclpy_handle_add_dependency A B st = Done RCUTILS_RET_OK st' →
  num_of_dependencies hA + 1 ≤ SIZE_MAX ∧
  ∃ hA' hB',
    load_handle A st' = Some hA' ∧ load_handle B st' = Some hB' ∧
    dependency_entries hA' st' = dependency_entries hA st ++ [B] ∧
    num_of_dependencies hA' = num_of_dependencies hA + 1 ∧
    ref_count hB' = ref_count hB + 1 ∧
    (A ≠ B → ref_count hA' = ref_count hA).
Proof.
  intros HlA HlB Hlen Hmax Hrc H.
  apply add_dependency_Done_inv in H
    as (hA0 & content & new & HA & HB & HlA0 & Hcontent & _ & H).
  assert (hA0 = hA) as -> by congruence.
  destruct H as [[[=] _]|(_ & Hnew & HnA & HnB & Hslot & hB0 & HlB0 & Hheap)].
  destruct (slot_fits (num_of_dependencies hA) ltac:(lia) Hslot) as (Hn1 & Hj & Hk).
  split; [rewrite <- Hn1; apply size_wrap_range|].
  rewrite Hn1, Hj, Hk in *.
  set (hA1 := set_dependencies new
                (set_num_of_dependencies (num_of_dependencies hA + 1) hA)) in *.
  assert (ref_count hB0 = ref_count hB ∧
          hB0 = (if decide (A = B) then hA1 else hB)) as [HrcB HhB0].
  { apply load_handle_lookup in HlB0 as [_ HlB0]. simpl in HlB0.
    case_decide as HAB.
    - subst B. rewrite lookup_insert_eq in HlB0. injection HlB0 as <-.
      assert (hB = hA) as -> by congruence. done.
    - rewrite lookup_insert_ne in HlB0 by done.
      apply load_handle_lookup in HlB as [_ HlB]. split; congruence. }
  set (hB' := set_ref_count (size_wrap (ref_count hB0 + 1)) hB0) in *.
  set (arr := <[Z.to_nat (num_of_dependencies hA) := B]>
                (resize (S (Z.to_nat (num_of_dependencies hA))) NULL content)) in *.
  assert (arr = dependency_entries hA st ++ [B]) as Harr.
  { unfold arr, dependency_entries in *. destruct Hcontent as [[Hd ->]|[_ Hl]].
    - rewrite Hd in *. change (load_array NULL st) with (@None (list addr)) in *.
      simpl in Hlen. rewrite <- Hlen. reflexivity.
    - rewrite Hl in *. rewrite length_take in Hlen.
      apply insert_resize_snoc. lia. }
  assert (load_array new st' = Some arr) as Hnew'.
  { apply load_array_lookup. split; [done|].
    rewrite Hheap, !lookup_insert_ne, lookup_insert_eq by done. done. }
  assert (load_handle B st' = Some hB') as HlB'.
  { apply load_handle_lookup. split; [done|]. by rewrite Hheap, lookup_insert_eq. }
  assert (ref_count hB' = ref_count hB + 1) as HrcB'.
  { unfold hB'. simpl. rewrite HrcB. apply size_wrap_small. lia. }
  assert (∀ h, dependencies h = new →
               num_of_dependencies h = num_of_dependencies hA + 1 →
               dependency_entries h st' = dependency_entries hA st ++ [B]) as Hentries.
  { intros h Hd Hn. unfold dependency_entries at 1. rewrite Hd, Hn, Hnew'.
    rewrite take_ge; [done|]. rewrite Harr, length_app. simpl. lia. }
  destruct (decide (A = B)) as [E|HAB].
  - subst B hB0. exists hB', hB'. repeat split; try done.
    by apply Hentries.
  - subst hB0. exists hA1, hB'. split.
    { apply load_handle_lookup. split; [done|].
      rewrite Hheap, lookup_insert_ne, lookup_insert_eq by done. done. }
    repeat split; try done. by apply Hentries.
Qed.

(** X6: when [_rclpy_handle_add_dependency] returns [RCUTILS_RET_ERROR]
    on a dependent whose list, grown by one pointer, still has a byte
    size that fits [size_t], the whole change to the state is the
    dependent's recorded length, one higher than before: the dependent's
    list pointer and count, the dependency and every other block are as
    they were, and no event is recorded. *)
Theorem add_dependency_failure_effect A B hA st st' :
  load_handle A st = Some hA →
  0 ≤ num_of_dependencies hA →
  (num_of_dependencies hA + 1) * sizeof_ptr ≤ SIZE_MAX →
  _rclpy_handle_add_dependency A B st = Done RCUTILS_RET_ERROR st' →
  load_handle A st'
  = Some (mk_handle (ptr hA) (ref_count hA) (dependencies hA)
            (num_of_dependencies hA + 1) (destructor hA)) ∧
  (∀ x, x ≠ A → heap st' !! x = heap st !! x) ∧
  trace st' = trace st.
Proof.
  intros HlA Hpos Hfit H.
  apply add_dependency_error_state in H as (hA0 & HlA0 & Hh & Ht).
  assert (hA0 = hA) as -> by congruence.
  apply load_handle_lookup in HlA as [HA _].
  assert (size_wrap (num_of_dependencies hA + 1) = num_of_dependencies hA + 1) as Hn.
  { apply size_wrap_small. unfold sizeof_ptr in Hfit. lia. }
  split; [|split; [|done]].
  - apply load_handle_lookup. split; [done|]. rewrite Hh, lookup_insert_eq.
    unfold set_num_of_dependencies. by rewrite Hn.
  - intros x Hx. rewrite Hh. by apply lookup_insert_ne.
Qed.

Lemma add_dependency_failure_effect_witness :
  ∃ st', _rclpy_handle_add_dependency 16 32 (two_handles [None])
         = Done RCUTILS_RET_ERROR st' ∧
         load_handle 16 st'
         = Some (mk_handle (ptr (mk_handle 100 1 NULL 0 7))
                   (ref_count (mk_handle 100 1 NULL 0 7))
                   (dependencies (mk_handle 100 1 NULL 0 7))
                   (num_of_dependencies (mk_handle 100 1 NULL 0 7) + 1)
                   (destructor (mk_handle 100 1 NULL 0 7))) ∧
         (∀ x, x ≠ 16 → heap st' !! x = heap (two_handles [None]) !! x) ∧
         trace st' = trace (two_handles [None]).
Proof.
  eexists. split.
  - vm_compute. reflexivity.
  - apply (add_dependency_failure_effect 16 32 (mk_handle 100 1 NULL 0 7)
             (two_handles [None])).
    + vm_compute. reflexivity.
    + simpl. lia.
    + vm_compute. discriminate.
    + vm_compute. reflexivity.
Defined.

(** X7: in the state a failed [_rclpy_handle_add_dependency] returns, a
    dependent that had no dependencies records one dependency and still
    has a null list pointer: the record no longer satisfies the condition
    asserted at the top of [_rclpy_handle_dec_ref].  Released in that very
    state, with the assertion compiled in as it is in this development,
    the dependent makes the call stop on the assertion. *)
Theorem failed_add_breaks_deps_invariant fuel A B hA st st' :
  load_handle A st = Some hA →
  num_of_dependencies hA = 0 →
  dependencies hA = NULL →
  _rclpy_handle_add_dependency A B st = Done RCUTILS_RET_ERROR st' →
  ∃ hA', load_handle A st' = Some hA' ∧
         num_of_dependencies hA' = 1 ∧
         dependencies hA' = NULL ∧
         deps_invariant hA' = false ∧
         _rclpy_handle_dec_ref (S fuel) A st' = Fault AssertionFailed.
Proof.
  intros HlA Hn Hd H. apply add_dependency_error_state in H as (hA0 & HlA0 & Hh & _).
  assert (hA0 = hA) as -> by congruence.
  apply load_handle_lookup in HlA as [HA _].
  assert (load_handle A st'
          = Some (set_num_of_dependencies (size_wrap (num_of_dependencies hA + 1)) hA))
    as Hl'.
  { apply load_handle_lookup. split; [done|]. rewrite Hh. apply lookup_insert_eq. }
  eexists. split; [exact Hl'|].
  assert (deps_invariant
            (set_num_of_dependencies (size_wrap (num_of_dependencies hA + 1)) hA)
          = false) as Hinv.
  { unfold deps_invariant.
    cbn [num_of_dependencies dependencies set_num_of_dependencies].
    rewrite Hn, Hd. reflexivity. }
  split; [cbn [num_of_dependencies set_num_of_dependencies]; by rewrite Hn|].
  split; [exact Hd|]. split; [exact Hinv|].
  rewrite dec_ref_unfold. apply Z.eqb_neq in HA as Hb. rewrite Hb.
  rewrite (bind_eq _ _ _ _ _ (read_handle_eq _ _ _ Hl')).
  rewrite Hinv. reflexivity.
Qed.

Lemma failed_add_breaks_deps_invariant_witness :
  ∃ st', _rclpy_handle_add_dependency 16 32 (two_handles [None])
         = Done RCUTILS_RET_ERROR st' ∧
  ∃ hA', load_handle 16 st' = Some hA' ∧
         num_of_dependencies hA' = 1 ∧
         dependencies hA' = NULL ∧
         deps_invariant hA' = false ∧
         _rclpy_handle_dec_ref 1 16 st' = Fault AssertionFailed.
Proof.
  eexists. split.
  - vm_compute. reflexivity.
  - apply (failed_add_breaks_deps_invariant 0 16 32 (mk_handle 100 1 NULL 0 7)
             (two_handles [None])).
    + vm_compute. reflexivity.
    + reflexivity.
    + reflexivity.
    + vm_compute. reflexivity.
Defined.

(** X8: a successful [_rclpy_handle_add_dependency] keeps the dependent
    well formed: its recorded length is again the length of its list and
    a [size_t] value, so the call can be repeated on the result. *)
Theorem add_dependency_keeps_length A B hA hB st st' :
  load_handle A st = Some hA →
  load_handle B st = Some hB →
  Z.of_nat (length (dependency_entries hA st)) = num_of_dependencies hA →
  num_of_dependencies hA ≤ SIZE_MAX →
  0 ≤ ref_count hB < SIZE_MAX →
  _rclpy_handle_add_dependency A B st = Done RCUTILS_RET_OK st' →
  ∃ hA', load_handle A st' = Some hA' ∧
         Z.of_nat (length (dependency_entries hA' st')) = num_of_dependencies hA' ∧
         num_of_dependencies hA' ≤ SIZE_MAX.
Proof.
  intros HlA HlB Hlen Hmax Hrc H.
  destruct (add_dependency_appends _ _ _ _ _ _ HlA HlB Hlen Hmax Hrc H)
    as (Hfit & hA' & hB' & HlA' & _ & Hentries & Hnum & _).
  exists hA'. split; [done|]. split; [|lia].
  rewrite Hentries, length_app, Hnum. simpl. lia.
Qed.

Lemma add_dependency_keeps_length_witness :
  ∃ st', _rclpy_handle_add_dependency 16 32 (two_handles [Some 48])
         = Done RCUTILS_RET_OK st' ∧
  ∃ hA', load_handle 16 st' = Some hA' ∧
         Z.of_nat (length (dependency_entries hA' st')) = num_of_dependencies hA' ∧
         num_of_dependencies hA' ≤ SIZE_MAX.
Proof.
  eexists. split.
  - vm_compute. reflexivity.
  - apply (add_dependency_keeps_length 16 32 (mk_handle 100 1 NULL 0 7)
             (mk_handle 200 1 NULL 0 8) (two_handles [Some 48])).
    + vm_compute. reflexivity.
    + vm_compute. reflexivity.
    + vm_compute. reflexivity.
    + vm_compute. discriminate.
    + unfold SIZE_MAX, SIZE_WIDTH. simpl. lia.
    + vm_compute. reflexivity.
Defined.

(** X9: adding the same dependency twice records it twice and counts it
    twice: after two successful calls the dependent's list ends with two
    entries for the dependency, whose reference count has grown by 2,
    while the dependent's own count has not moved. *)
Theorem add_dependency_twice A B hA hB st st1 st2 :
  A ≠ B →
  load_handle A st = Some hA →
  load_handle B st = Some hB →
  Z.of_nat (length (dependency_entries hA st)) = num_of_dependencies hA →
  num_of_dependencies hA ≤ SIZE_MAX →
  0 ≤ ref_count hB →
  ref_count hB + 1 < SIZE_MAX →
  _rclpy_handle_add_dependency A B st = Done RCUTILS_RET_OK st1 →
  _rclpy_handle_add_dependency A B st1 = Done RCUTILS_RET_OK st2 →
  ∃ hA2 hB2,
    load_handle A st2 = Some hA2 ∧ load_handle B st2 = Some hB2 ∧
    dependency_entries hA2 st2 = dependency_entries hA st ++ [B; B] ∧
    num_of_dependencies hA2 = num_of_dependencies hA + 2 ∧
    ref_count hB2 = ref_count hB + 2 ∧
    ref_count hA2 = ref_count hA.
Proof.
  intros HAB HlA HlB Hlen Hmax Hrc0 Hrc1 H1 H2.
  destruct (add_dependency_appends _ _ _ _ _ _ HlA HlB Hlen Hmax ltac:(lia) H1)
    as (Hfit1 & hA1 & hB1 & HlA1 & HlB1 & He1 & Hn1 & Hr1 & Hk1).
  assert (Z.of_nat (length (dependency_entries hA1 st1)) = num_of_dependencies hA1)
    as Hlen1.
  { rewrite He1, length_app, Hn1. simpl. lia. }
  destruct (add_dependency_appends _ _ _ _ _ _ HlA1 HlB1 Hlen1 ltac:(lia) ltac:(lia) H2)
    as (Hfit2 & hA2 & hB2 & HlA2 & HlB2 & He2 & Hn2 & Hr2 & Hk2).
  exists hA2, hB2. split; [done|]. split; [done|]. split; [|split; [|split]].
  - rewrite He2, He1, <- app_assoc. reflexivity.
  - lia.
  - lia.
  - rewrite (Hk2 HAB). by apply Hk1.
Qed.

Lemma add_dependency_twice_witness :
  ∃ st1 st2,
    _rclpy_handle_add_dependency 16 32 (two_handles [Some 48; Some 64])
    = Done RCUTILS_RET_OK st1 ∧
    _rclpy_handle_add_dependency 16 32 st1 = Done RCUTILS_RET_OK st2 ∧
    ∃ hA2 hB2,
      load_handle 16 st2 = Some hA2 ∧ load_handle 32 st2 = Some hB2 ∧
      dependency_entries hA2 st2
      = dependency_entries (mk_handle 100 1 NULL 0 7)
          (two_handles [Some 48; Some 64]) ++ [32; 32] ∧
      num_of_dependencies hA2 = num_of_dependencies (mk_handle 100 1 NULL 0 7) + 2 ∧
      ref_count hB2 = ref_count (mk_handle 200 1 NULL 0 8) + 2 ∧
      ref_count hA2 = ref_count (mk_handle 100 1 NULL 0 7).
Proof.
  eexists. eexists. split; [vm_compute; reflexivity|]. split; [vm_compute; reflexivity|].
  eapply (add_dependency_twice 16 32 (mk_handle 100 1 NULL 0 7)
            (mk_handle 200 1 NULL 0 8) (two_handles [Some 48; Some 64])).
  - lia.
  - vm_compute. reflexivity.
  - vm_compute. reflexivity.
  - vm_compute. reflexivity.
  - vm_compute. discriminate.
  - simpl. lia.
  - unfold SIZE_MAX, SIZE_WIDTH. simpl. lia.
  - vm_compute. reflexivity.
  - vm_compute. reflexivity.
Defined.

(** X10: a successful [_rclpy_create_handle] places the new record at an
    address that was free and is not [NULL], changes no block that already
    existed, and records no event. *)
Theorem create_handle_is_fresh p dtor st a st' :
  _rclpy_create_handle p dtor st = Done a st' →
  a ≠ NULL →
  heap st !! a = None ∧
  (∀ x, x ≠ a → heap st' !! x = heap st !! x) ∧
  trace st' = trace st.
Proof.
  intros H Ha. apply create_handle_Done in H as [[? _]|(_ & Hfree & Hh & Ht)]; [done|].
  split; [done|]. split; [|done]. intros x Hx. rewrite Hh. by apply lookup_insert_ne.
Qed.

Lemma create_handle_is_fresh_witness :
  ∃ st', _rclpy_create_handle 300 9 (two_handles [Some 48]) = Done 48 st' ∧
         heap (two_handles [Some 48]) !! 48 = None ∧
         (∀ x, x ≠ 48 → heap st' !! x = heap (two_handles [Some 48]) !! x) ∧
         trace st' = trace (two_handles [Some 48]).
Proof.
  eexists. split.
  - vm_compute. reflexivity.
  - apply (create_handle_is_fresh 300 9 (two_handles [Some 48]) 48).
    + vm_compute. reflexivity.
    + unfold NULL. lia.
Defined.

(** * The CPython boundary *)

Lemma pybind_eq {A B} (m : PyM A) (k : A → PyM B) env st a env1 st1 :
  m env st = Done (a, env1) st1 → pybind m k env st = k a env1 st1.
Proof. unfold pybind, bind. by intros ->. Qed.

Lemma native_eq {A} (m : M A) env st a st1 :
  m st = Done a st1 → native m env st = Done (a, env) st1.
Proof. unfold native, bind. by intros ->. Qed.

Lemma legal_capsule_pointer o p n : legal_capsule o = Some (p, n) → p ≠ NULL.
Proof.
  destruct o as [[p' n' d| | |]|]; simpl; try discriminate.
  destruct (Z.eqb_spec p' NULL); [discriminate|]. by intros [= <- _].
Qed.

(** [PyCapsule_GetPointer(o, PyCapsule_GetName(o))], the way the file
    reaches the handle of a capsule: on a legal capsule the name always
    matches. *)
Lemma own_pointer_legal {A} o p n (k : addr → PyM A) env st :
  legal_capsule o = Some (p, n) →
  (py name <~ PyCapsule_GetName o; py handle <~ PyCapsule_GetPointer o name; k handle)
    env st
  = k p env st.
Proof.
  intros Hl. unfold PyCapsule_GetName, PyCapsule_GetPointer. rewrite Hl.
  unfold pybind at 1, pyret at 1, bind, ret. simpl.
  unfold name_matches. rewrite bool_decide_eq_true_2 by done. reflexivity.
Qed.

Lemma own_pointer_illegal {A} o (k : addr → PyM A) env st :
  legal_capsule o = None →
  (py name <~ PyCapsule_GetName o; py handle <~ PyCapsule_GetPointer o name; k handle)
    env st
  = k NULL (mk_pyenv (Some PyExc_ValueError) (py_memory env)) st.
Proof.
  intros Hl. unfold PyCapsule_GetName, PyCapsule_GetPointer. rewrite Hl. reflexivity.
Qed.

(** X11: both release entry points, [rclpy_handle_dec_ref] called from
    Python and the capsule destructor, release exactly the handle stored
    in the capsule, whatever name the capsule carries; the Python entry
    point then returns [None] and neither touches the error indicator. *)
Theorem release_entry_points_delegate fuel c a n env st :
  legal_capsule (Some c) = Some (a, n) →
  py_error env = None →
  rclpy_handle_dec_ref fuel (PyTuple [c]) env st
  = match _rclpy_handle_dec_ref fuel a st with
    | Done _ st' => Done (Some PyNone, env) st'
    | Fault f => Fault f
    | OutOfFuel => OutOfFuel
    end ∧
  _rclpy_handle_capsule_destructor fuel c env st
  = match _rclpy_handle_dec_ref fuel a st with
    | Done _ st' => Done (tt, env) st'
    | Fault f => Fault f
    | OutOfFuel => OutOfFuel
    end.
Proof.
  intros Hl Herr. pose proof (legal_capsule_pointer _ _ _ Hl) as Ha.
  apply Z.eqb_neq in Ha. split.
  - unfold rclpy_handle_dec_ref.
    rewrite (pybind_eq _ _ env st (Some [c]) env st) by reflexivity.
    rewrite (own_pointer_legal _ _ _ _ _ _ Hl).
    unfold pybind at 1, PyErr_Occurred, bind, ret. rewrite Herr. simpl.
    unfold pybind, native, bind, pyret, ret.
    by destruct (_rclpy_handle_dec_ref fuel a st) as [[] ?| |].
  - unfold _rclpy_handle_capsule_destructor.
    rewrite (own_pointer_legal _ _ _ _ _ _ Hl). rewrite Ha.
    unfold native, bind, ret.
    by destruct (_rclpy_handle_dec_ref fuel a st) as [[] ?| |].
Qed.

Lemma release_entry_points_delegate_witness :
  rclpy_handle_dec_ref 2 (PyTuple [node_capsule]) (quiet []) (two_handles [])
  = match _rclpy_handle_dec_ref 2 16 (two_handles []) with
    | Done _ st' => Done (Some PyNone, quiet []) st'
    | Fault f => Fault f
    | OutOfFuel => OutOfFuel
    end ∧
  _rclpy_handle_capsule_destructor 2 node_capsule (quiet []) (two_handles [])
  = match _rclpy_handle_dec_ref 2 16 (two_handles []) with
    | Done _ st' => Done (tt, quiet []) st'
    | Fault f => Fault f
    | OutOfFuel => OutOfFuel
    end.
Proof.
  apply (release_entry_points_delegate 2 node_capsule 16 (Some "rcl_node_t"%string)
           (quiet []) (two_handles [])); reflexivity.
Defined.

(** ** The entry point for adding a dependency *)

Lemma bind_no_assert {A B} (m : M A) (k : A → M B) :
  no_assert m → (∀ a, no_assert (k a)) → no_assert (bind m k).
Proof.
  intros Hm Hk st. unfold bind. specialize (Hm st).
  destruct (m st) as [a st1|f|]; [apply Hk | congruence | done].
Qed.

Lemma read_handle_no_assert a : no_assert (read_handle a).
Proof. intros st. unfold read_handle. by destruct (load_handle a st). Qed.

Lemma update_handle_no_assert a f : no_assert (update_handle a f).
Proof.
  apply bind_no_assert; [apply read_handle_no_assert|]. by intros h st.
Qed.

Lemma reallocate_no_assert old size : no_assert (reallocate old size).
Proof.
  apply bind_no_assert.
  - destruct (old =? NULL); [done|]. intros st. by destruct (load_array old st).
  - intros content. apply bind_no_assert.
    + intros st. unfold next_placement. by destruct (placements st).
    + intros [p|] st; [|done]. by destruct (_ && _).
Qed.

Lemma write_entry_no_assert arr i v : no_assert (write_entry arr i v).
Proof.
  intros st. unfold write_entry. destruct (load_array arr st) as [l|]; [|done].
  by destruct (_ <? _)%nat.
Qed.

Lemma add_dependency_no_assert a b :
  a ≠ NULL → b ≠ NULL → no_assert (_rclpy_handle_add_dependency a b).
Proof.
  intros Ha Hb. unfold _rclpy_handle_add_dependency.
  apply Z.eqb_neq in Ha as ->. apply Z.eqb_neq in Hb as ->.
  apply bind_no_assert; [apply update_handle_no_assert|]. intros _.
  apply bind_no_assert; [apply read_handle_no_assert|]. intros h.
  apply bind_no_assert; [apply reallocate_no_assert|]. intros new.
  destruct (new =? NULL); [done|].
  apply bind_no_assert; [apply read_handle_no_assert|]. intros h'.
  apply bind_no_assert; [apply write_entry_no_assert|]. intros _.
  apply bind_no_assert; [apply update_handle_no_assert|]. intros _.
  apply bind_no_assert; [apply update_handle_no_assert|]. by intros _ st.
Qed.

Lemma capsule_pointers_pair c1 c2 a b :
  capsule_pointers [c1; c2] = Some [a; b] →
  ∃ n1 n2, legal_capsule (Some c1) = Some (a, n1) ∧
           legal_capsule (Some c2) = Some (b, n2).
Proof.
  cbn [capsule_pointers].
  destruct (legal_capsule (Some c1)) as [[p1 n1]|]; [|discriminate].
  destruct (legal_capsule (Some c2)) as [[p2 n2]|]; [|discriminate].
  intros [= <- <-]. eauto.
Qed.

Lemma argument_handles_pair args a b :
  argument_handles args = Some [a; b] →
  ∃ c1 c2 n1 n2, args = PyTuple [c1; c2] ∧
                 legal_capsule (Some c1) = Some (a, n1) ∧
                 legal_capsule (Some c2) = Some (b, n2).
Proof.
  destruct args as [| items | |]; try discriminate. simpl.
  destruct items as [|c1 [|c2 [|c3 rest]]]; cbn [capsule_pointers].
  - discriminate.
  - destruct (legal_capsule (Some c1)) as [[? ?]|]; discriminate.
  - intros H. apply capsule_pointers_pair in H as (n1 & n2 & H1 & H2).
    exists c1, c2, n1, n2. done.
  - destruct (legal_capsule (Some c1)) as [[? ?]|]; [|discriminate].
    destruct (legal_capsule (Some c2)) as [[? ?]|]; [|discriminate].
    destruct (legal_capsule (Some c3)) as [[? ?]|]; [|discriminate].
    destruct (capsule_pointers rest); discriminate.
Qed.

(** What the entry point does once both capsules have given their
    handles and no exception is pending. *)
Lemma add_entry_delegates args a b env st :
  argument_handles args = Some [a; b] →
  py_error env = None →
  rclpy_handle_add_dependency args env st
  = match _rclpy_handle_add_dependency a b st with
    | Done RCUTILS_RET_OK st' => Done (Some PyNone, env) st'
    | Done RCUTILS_RET_ERROR st' =>
        Done (None, mk_pyenv (Some PyExc_RuntimeError) (py_memory env)) st'
    | Fault f => Fault f
    | OutOfFuel => OutOfFuel
    end.
Proof.
  intros (c1 & c2 & n1 & n2 & -> & H1 & H2)%argument_handles_pair Herr.
  unfold rclpy_handle_add_dependency.
  rewrite (pybind_eq _ _ env st (Some [c1; c2]) env st) by reflexivity.
  rewrite (own_pointer_legal _ _ _ _ _ _ H1).
  rewrite (own_pointer_legal _ _ _ _ _ _ H2).
  unfold pybind at 1, PyErr_Occurred, bind, ret. rewrite Herr. simpl.
  unfold pybind, native, bind, pyret, ret.
  by destruct (_rclpy_handle_add_dependency a b st) as [[] ?| |].
Qed.

(** What it does otherwise: nothing to the native state. *)
Lemma add_entry_rejects args env st :
  (∀ a b, argument_handles args ≠ Some [a; b]) ∨ py_error env ≠ None →
  ∃ env', rclpy_handle_add_dependency args env st = Done (None, env') st ∧
          py_error env' ≠ None.
Proof.
  intros Hbad. unfold rclpy_handle_add_dependency.
  destruct args as [| items | |];
    try (eexists; split; [reflexivity | simpl; done]).
  destruct items as [|c1 [|c2 [|c3 rest]]];
    try (eexists; split; [reflexivity | simpl; done]).
  rewrite (pybind_eq _ _ env st (Some [c1; c2]) env st) by reflexivity.
  destruct (legal_capsule (Some c1)) as [[a n1]|] eqn:H1.
  - rewrite (own_pointer_legal _ _ _ _ _ _ H1).
    destruct (legal_capsule (Some c2)) as [[b n2]|] eqn:H2.
    + rewrite (own_pointer_legal _ _ _ _ _ _ H2).
      destruct Hbad as [Hbad|Hbad].
      { exfalso. apply (Hbad a b). cbn [argument_handles capsule_pointers].
        by rewrite H1, H2. }
      unfold pybind at 1, PyErr_Occurred, bind, ret.
      destruct (py_error env) eqn:Herr; [|done]. simpl.
      eexists. split; [reflexivity|]. by rewrite Herr.
    + rewrite (own_pointer_illegal _ _ _ _ H2).
      eexists. split; [reflexivity | simpl; done].
  - rewrite (own_pointer_illegal _ _ _ _ H1).
    destruct (legal_capsule (Some c2)) as [[b n2]|] eqn:H2.
    + rewrite (own_pointer_legal _ _ _ _ _ _ H2).
      eexists. split; [reflexivity | simpl; done].
    + rewrite (own_pointer_illegal _ _ _ _ H2).
      eexists. split; [reflexivity | simpl; done].
Qed.

(** X12: called with two legal capsules and no exception pending,
    [rclpy_handle_add_dependency] runs [_rclpy_handle_add_dependency] on
    the two stored handles, whatever the capsules are named; success gives
    [None] back, [RCUTILS_RET_ERROR] becomes a [RuntimeError] with a null
    result, and the state is the one the core call left. *)
Theorem add_entry_point_delegates args a b env st :
  argument_handles args = Some [a; b] →
  py_error env = None →
  rclpy_handle_add_dependency args env st
  = match _rclpy_handle_add_dependency a b st with
    | Done RCUTILS_RET_OK st' => Done (Some PyNone, env) st'
    | Done RCUTILS_RET_ERROR st' =>
        Done (None, mk_pyenv (Some PyExc_RuntimeError) (py_memory env)) st'
    | Fault f => Fault f
    | OutOfFuel => OutOfFuel
    end.
Proof. apply add_entry_delegates. Qed.

Lemma add_entry_point_delegates_witness :
  rclpy_handle_add_dependency (PyTuple [node_capsule; context_capsule])
    (quiet []) (two_handles [Some 48])
  = match _rclpy_handle_add_dependency 16 32 (two_handles [Some 48]) with
    | Done RCUTILS_RET_OK st' => Done (Some PyNone, quiet []) st'
    | Done RCUTILS_RET_ERROR st' =>
        Done (None, mk_pyenv (Some PyExc_RuntimeError) (py_memory (quiet []))) st'
    | Fault f => Fault f
    | OutOfFuel => OutOfFuel
    end.
Proof.
  apply (add_entry_point_delegates (PyTuple [node_capsule; context_capsule]) 16 32
           (quiet []) (two_handles [Some 48])); reflexivity.
Defined.

(** X13: whatever Python passes, [rclpy_handle_add_dependency] never
    trips the two [assert]s of [_rclpy_handle_add_dependency]: a null
    handle always comes with an exception, which is checked first. *)
Theorem add_entry_point_never_asserts args env st :
  rclpy_handle_add_dependency args env st ≠ Fault AssertionFailed.
Proof.
  destruct (py_error env) eqn:Herr.
  { destruct (add_entry_rejects args env st) as (env' & -> & _); [|done].
    right. by rewrite Herr. }
  destruct (argument_handles args) as [[|a [|b [|c rest]]]|] eqn:Hargs.
  1, 2, 4, 5: destruct (add_entry_rejects args env st) as (env' & -> & _);
    [left; intros ? ?; by rewrite Hargs | done].
  rewrite (add_entry_delegates _ _ _ _ _ Hargs Herr).
  apply argument_handles_pair in Hargs as (c1 & c2 & n1 & n2 & _ & H1 & H2).
  apply legal_capsule_pointer in H1, H2.
  pose proof (add_dependency_no_assert a b H1 H2 st) as Hna.
  destruct (_rclpy_handle_add_dependency a b st) as [[] ?|f|]; congruence.
Qed.

(** X14: a null result of [rclpy_handle_add_dependency] always comes with
    a Python exception set. *)
Theorem add_entry_point_null_sets_exception args env st env' st' :
  rclpy_handle_add_dependency args env st = Done (None, env') st' →
  py_error env' ≠ None.
Proof.
  intros H. destruct (py_error env) eqn:Herr.
  { destruct (add_entry_rejects args env st) as (env1 & Hr & He).
    - right. by rewrite Herr.
    - rewrite Hr in H. by injection H as <- _. }
  destruct (argument_handles args) as [[|a [|b [|c rest]]]|] eqn:Hargs.
  1, 2, 4, 5: destruct (add_entry_rejects args env st) as (env1 & Hr & He);
    [left; intros ? ?; by rewrite Hargs
    | rewrite Hr in H; by injection H as <- _].
  rewrite (add_entry_delegates _ _ _ _ _ Hargs Herr) in H.
  destruct (_rclpy_handle_add_dependency a b st) as [[] ?|f|]; try discriminate.
  by injection H as <- _.
Qed.

Lemma add_entry_point_null_sets_exception_witness :
  ∃ env' st',
    rclpy_handle_add_dependency (PyTuple [node_capsule; context_capsule])
      (quiet []) (two_handles [None]) = Done (None, env') st' ∧
    py_error env' ≠ None.
Proof.
  eexists. eexists. split.
  - vm_compute. reflexivity.
  - eapply (add_entry_point_null_sets_exception
              (PyTuple [node_capsule; context_capsule]) (quiet []) (two_handles [None])).
    vm_compute. reflexivity.
Defined.

(** X15: unless it is handed exactly two legal capsules with no exception
    pending, [rclpy_handle_add_dependency] returns null with an exception
    set and leaves the handles exactly as they were. *)
Theorem add_entry_point_rejects args env st :
  (∀ a b, argument_handles args ≠ Some [a; b]) ∨ py_error env ≠ None →
  ∃ env', rclpy_handle_add_dependency args env st = Done (None, env') st ∧
          py_error env' ≠ None.
Proof. apply add_entry_rejects. Qed.

Lemma add_entry_point_rejects_witness :
  ∃ env', rclpy_handle_add_dependency (PyTuple [node_capsule; PyNone])
            (quiet []) (two_handles [Some 48])
          = Done (None, env') (two_handles [Some 48]) ∧
          py_error env' ≠ None.
Proof.
  apply (add_entry_point_rejects (PyTuple [node_capsule; PyNone]) (quiet [])
           (two_handles [Some 48])).
  left. intros a b. vm_compute. discriminate.
Defined.

(** ** Capsules around handles *)

Lemma pybind_Done {A B} (m : PyM A) (k : A → PyM B) env st b env' st' :
  pybind m k env st = Done (b, env') st' →
  ∃ a env1 st1, m env st = Done (a, env1) st1 ∧ k a env1 st1 = Done (b, env') st'.
Proof.
  unfold pybind. intros ([a env1] & st1 & Hm & Hk)%bind_Done. eauto.
Qed.

Lemma native_Done {A} (m : M A) env st a env' st' :
  native m env st = Done (a, env') st' → env' = env ∧ m st = Done a st'.
Proof.
  unfold native. intros (a0 & st1 & Hm & [[= -> ->] ->]%ret_Done)%bind_Done. done.
Qed.

(** What a successful [rclpy_create_handle_capsule] has done. *)
Lemma create_handle_capsule_Done p name dtor env st c env' st' :
  rclpy_create_handle_capsule p name dtor env st = Done (Some c, env') st' →
  ∃ a, a ≠ NULL ∧
       c = PyCapsule a name HandleCapsuleDestructor ∧
       py_error env' = py_error env ∧
       heap st !! a = None ∧
       heap st' = <[a := BHandle (mk_handle p 1 NULL 0 dtor)]> (heap st) ∧
       trace st' = trace st.
Proof.
  unfold rclpy_create_handle_capsule.
  intros (a & env1 & st1 & Hc & H)%pybind_Done.
  apply native_Done in Hc as [-> Hc].
  destruct (Z.eqb_spec a NULL) as [|Ha]; [discriminate|].
  apply create_handle_Done in Hc as [[? _]|(_ & Hfree & Hh & Ht)]; [done|].
  unfold PyCapsule_New in H. apply Z.eqb_neq in Ha as Hb. rewrite Hb in H.
  destruct (py_memory env) as [|[|] rest]; simpl in H; try discriminate.
  injection H as <- <- <-. exists a. done.
Qed.

(** X16: the resource pointer given to [rclpy_create_handle_capsule]
    comes back from [rclpy_handle_get_pointer] when the capsule is asked
    under the name it was created with; the lookup changes nothing. *)
Theorem capsule_pointer_round_trip p name dtor env st c env' st' :
  rclpy_create_handle_capsule p name dtor env st = Done (Some c, env') st' →
  rclpy_handle_get_pointer (Some c) name env' st' = Done (p, env') st'.
Proof.
  intros (a & Ha & -> & _ & _ & Hh & _)%create_handle_capsule_Done.
  unfold rclpy_handle_get_pointer, PyCapsule_GetPointer. simpl.
  apply Z.eqb_neq in Ha as Hb. rewrite Hb.
  unfold name_matches. rewrite bool_decide_eq_true_2 by done.
  unfold pybind at 1, pyret at 1, bind at 1, ret at 1. simpl. rewrite Hb.
  assert (load_handle a st' = Some (mk_handle p 1 NULL 0 dtor)) as Hl.
  { apply load_handle_lookup. split; [done|]. rewrite Hh. apply lookup_insert_eq. }
  rewrite (pybind_eq _ _ _ _ _ _ _ (native_eq _ _ _ _ _ (read_handle_eq _ _ _ Hl))).
  reflexivity.
Qed.

Lemma capsule_pointer_round_trip_witness :
  ∃ c env' st',
    rclpy_create_handle_capsule 100 (Some "rcl_node_t"%string) 7
      (quiet [true]) (empty_state [Some 16]) = Done (Some c, env') st' ∧
    rclpy_handle_get_pointer (Some c) (Some "rcl_node_t"%string) env' st'
    = Done (100, env') st'.
Proof.
  eexists. eexists. eexists. split.
  - vm_compute. reflexivity.
  - eapply (capsule_pointer_round_trip 100 (Some "rcl_node_t"%string) 7
              (quiet [true]) (empty_state [Some 16])).
    vm_compute. reflexivity.
Defined.

(** X17: asked under any other name, [rclpy_handle_get_pointer] returns
    null, sets [ValueError] and does not touch the handle. *)
Theorem capsule_pointer_wrong_name p name name' dtor env st c env' st' :
  rclpy_create_handle_capsule p name dtor env st = Done (Some c, env') st' →
  name' ≠ name →
  rclpy_handle_get_pointer (Some c) name' env' st'
  = Done (NULL, mk_pyenv (Some PyExc_ValueError) (py_memory env')) st'.
Proof.
  intros (a & Ha & -> & _)%create_handle_capsule_Done Hname.
  unfold rclpy_handle_get_pointer, PyCapsule_GetPointer. simpl.
  apply Z.eqb_neq in Ha as Hb. rewrite Hb.
  unfold name_matches. rewrite bool_decide_eq_false_2 by done. reflexivity.
Qed.

Lemma capsule_pointer_wrong_name_witness :
  ∃ c env' st',
    rclpy_create_handle_capsule 100 (Some "rcl_node_t"%string) 7
      (quiet [true]) (empty_state [Some 16]) = Done (Some c, env') st' ∧
    rclpy_handle_get_pointer (Some c) (Some "rcl_context_t"%string) env' st'
    = Done (NULL, mk_pyenv (Some PyExc_ValueError) (py_memory env')) st'.
Proof.
  eexists. eexists. eexists. split.
  - vm_compute. reflexivity.
  - eapply (capsule_pointer_wrong_name 100 (Some "rcl_node_t"%string)
              (Some "rcl_context_t"%string) 7 (quiet [true]) (empty_state [Some 16])).
    + vm_compute. reflexivity.
    + discriminate.
Defined.

(** X18: when the handle cannot be allocated,
    [rclpy_create_handle_capsule] returns null with the heap unchanged and
    without setting any Python exception: the error indicator and the
    interpreter's memory are as they were. *)
Theorem create_handle_capsule_silent_failure p name dtor env st st1 :
  zero_allocate_handle st = Done NULL st1 →
  ∃ st', rclpy_create_handle_capsule p name dtor env st = Done (None, env) st' ∧
         heap st' = heap st.
Proof.
  intros Hz. unfold rclpy_create_handle_capsule, pybind, native, _rclpy_create_handle.
  unfold bind at 1. unfold bind at 1. unfold bind at 1. rewrite Hz. simpl.
  eexists. split; [reflexivity|]. simpl.
  apply zero_allocate_handle_Done in Hz as [(_ & Hh & _)|(Hne & _)]; done.
Qed.

Lemma create_handle_capsule_silent_failure_witness :
  ∃ st', rclpy_create_handle_capsule 100 (Some "rcl_node_t"%string) 7
           (quiet [true]) (empty_state [None])
         = Done (None, quiet [true]) st' ∧
         heap st' = heap (empty_state [None]).
Proof.
  apply (create_handle_capsule_silent_failure 100 (Some "rcl_node_t"%string) 7
           (quiet [true]) (empty_state [None]) (empty_state [])).
  vm_compute. reflexivity.
Defined.

(** X19: when the handle is allocated but the capsule object is not,
    [rclpy_create_handle_capsule] returns null with [MemoryError] and does
    not release the handle: the record stays in the heap although no
    capsule refers to it. *)
Theorem create_handle_capsule_leaks_handle p name dtor env st a st' :
  _rclpy_create_handle p dtor st = Done a st' →
  a ≠ NULL →
  head (py_memory env) ≠ Some true →
  ∃ env', rclpy_create_handle_capsule p name dtor env st = Done (None, env') st' ∧
          py_error env' = Some PyExc_MemoryError ∧
          load_handle a st' = Some (mk_handle p 1 NULL 0 dtor).
Proof.
  intros Hc Ha Hmem. unfold rclpy_create_handle_capsule.
  rewrite (pybind_eq _ _ _ _ _ _ _ (native_eq _ _ _ _ _ Hc)).
  apply Z.eqb_neq in Ha as Hb. rewrite Hb. unfold PyCapsule_New. rewrite Hb.
  assert (load_handle a st' = Some (mk_handle p 1 NULL 0 dtor)) as Hl.
  { apply create_handle_Done in Hc as [[? _]|(_ & _ & Hh & _)]; [done|].
    apply load_handle_lookup. split; [done|]. rewrite Hh. apply lookup_insert_eq. }
  destruct (py_memory env) as [|[|] rest]; simpl in Hmem; [|done|];
    (eexists; split; [reflexivity|]; done).
Qed.

Lemma create_handle_capsule_leaks_handle_witness :
  ∃ st',
    _rclpy_create_handle 100 7 (empty_state [Some 16]) = Done 16 st' ∧
    ∃ env',
      rclpy_create_handle_capsule 100 (Some "rcl_node_t"%string) 7
        (quiet [false]) (empty_state [Some 16]) = Done (None, env') st' ∧
      py_error env' = Some PyExc_MemoryError ∧
      load_handle 16 st' = Some (mk_handle 100 1 NULL 0 7).
Proof.
  eexists. split.
  - vm_compute. reflexivity.
  - apply (create_handle_capsule_leaks_handle 100 (Some "rcl_node_t"%string) 7
             (quiet [false]) (empty_state [Some 16]) 16).
    + vm_compute. reflexivity.
    + unfold NULL. lia.
    + discriminate.
Defined.

(** X20: a capsule that is created and then collected, with nothing else
    done to it, does not destroy its handle: the capsule destructor takes
    the count from 1 to 0, the record stays allocated, and the resource's
    destructor is never called. *)
Theorem capsule_collected_keeps_handle fuel p name dtor env st c env' st' :
  rclpy_create_handle_capsule p name dtor env st = Done (Some c, env') st' →
  ∃ a st'',
    legal_capsule (Some c) = Some (a, name) ∧
    _rclpy_handle_capsule_destructor (S fuel) c env' st' = Done (tt, env') st'' ∧
    load_handle a st'' = Some (mk_handle p 0 NULL 0 dtor) ∧
    trace st'' = trace st.
Proof.
  intros (a & Ha & -> & _ & _ & Hh & Ht)%create_handle_capsule_Done.
  assert (legal_capsule (Some (PyCapsule a name HandleCapsuleDestructor))
          = Some (a, name)) as Hlegal.
  { simpl. by apply Z.eqb_neq in Ha as ->. }
  assert (load_handle a st' = Some (mk_handle p 1 NULL 0 dtor)) as Hl.
  { apply load_handle_lookup. split; [done|]. rewrite Hh. apply lookup_insert_eq. }
  exists a, (decremented a (mk_handle p 1 NULL 0 dtor) st').
  split; [done|]. split; [|split].
  - unfold _rclpy_handle_capsule_destructor.
    rewrite (own_pointer_legal _ _ _ _ _ _ Hlegal).
    apply Z.eqb_neq in Ha as ->.
    apply native_eq. by apply dec_ref_reaches_zero.
  - by rewrite load_handle_decremented.
  - exact Ht.
Qed.

Lemma capsule_collected_keeps_handle_witness :
  ∃ c env' st',
    rclpy_create_handle_capsule 100 (Some "rcl_node_t"%string) 7
      (quiet [true]) (empty_state [Some 16]) = Done (Some c, env') st' ∧
    ∃ a st'',
      legal_capsule (Some c) = Some (a, Some "rcl_node_t"%string) ∧
      _rclpy_handle_capsule_destructor 1 c env' st' = Done (tt, env') st'' ∧
      load_handle a st'' = Some (mk_handle 100 0 NULL 0 7) ∧
      trace st'' = trace (empty_state [Some 16]).
Proof.
  eexists. eexists. eexists. split.
  - vm_compute. reflexivity.
  - eapply (capsule_collected_keeps_handle 0 100 (Some "rcl_node_t"%string) 7
              (quiet [true]) (empty_state [Some 16])).
    vm_compute. reflexivity.
Defined.

(** X21: a capsule whose handle was released once from Python with
    [rclpy_handle_dec_ref] is destroyed when the capsule is collected: the
    second release makes the count wrap and runs the teardown, with the
    resource's destructor called once on the resource pointer. *)
Theorem capsule_released_then_collected fuel p name dtor env st c env' st' :
  rclpy_create_handle_capsule p name dtor env st = Done (Some c, env') st' →
  py_error env = None →
  ∃ a,
    legal_capsule (Some c) = Some (a, name) ∧
    (pyrun rclpy_handle_dec_ref (S (S fuel)) (PyTuple [c]);
     _rclpy_handle_capsule_destructor (S (S fuel)) c) env' st'
    = Done (tt, env')
        (mk_state (delete a (heap st')) (placements st')
           (trace st ++ (if dtor =? NULL then [] else [EvDestructor dtor p])
              ++ [EvDeallocate NULL; EvDeallocate a])).
Proof.
  intros (a & Ha & -> & Herr' & _ & Hh & Ht)%create_handle_capsule_Done Herr.
  rewrite Herr in Herr'.
  assert (legal_capsule (Some (PyCapsule a name HandleCapsuleDestructor))
          = Some (a, name)) as Hlegal.
  { simpl. by apply Z.eqb_neq in Ha as ->. }
  set (h := mk_handle p 1 NULL 0 dtor).
  assert (load_handle a st' = Some h) as Hl.
  { apply load_handle_lookup. split; [done|]. rewrite Hh. apply lookup_insert_eq. }
  exists a. split; [done|].
  assert (rclpy_handle_dec_ref (S (S fuel))
            (PyTuple [PyCapsule a name HandleCapsuleDestructor]) env' st'
          = Done (Some PyNone, env') (decremented a h st')) as Hfirst.
  { unfold rclpy_handle_dec_ref.
    rewrite (pybind_eq _ _ env' st' (Some [PyCapsule a name HandleCapsuleDestructor])
               env' st') by reflexivity.
    rewrite (own_pointer_legal _ _ _ _ _ _ Hlegal).
    unfold pybind at 1, PyErr_Occurred, bind at 1, ret at 1. rewrite Herr'. simpl.
    rewrite (pybind_eq _ _ _ _ _ _ _
               (native_eq _ _ _ _ _ (dec_ref_reaches_zero (S fuel) a h st' Hl
                                        eq_refl eq_refl))).
    reflexivity. }
  rewrite (pybind_eq _ _ _ _ _ _ _ Hfirst).
  unfold _rclpy_handle_capsule_destructor.
  rewrite (own_pointer_legal _ _ _ _ _ _ Hlegal).
  apply Z.eqb_neq in Ha as Hb. rewrite Hb.
  rewrite (native_eq _ env' _ tt _
             (dec_ref_leaf fuel a _ _ (load_handle_decremented a h st' Ha)
                eq_refl eq_refl ltac:(vm_compute; discriminate))).
  simpl. rewrite delete_insert_eq, Ht. reflexivity.
Qed.

Lemma capsule_released_then_collected_witness :
  ∃ c env' st',
    rclpy_create_handle_capsule 100 (Some "rcl_node_t"%string) 7
      (quiet [true]) (empty_state [Some 16]) = Done (Some c, env') st' ∧
    ∃ a,
      legal_capsule (Some c) = Some (a, Some "rcl_node_t"%string) ∧
      (pyrun rclpy_handle_dec_ref 2 (PyTuple [c]);
       _rclpy_handle_capsule_destructor 2 c) env' st'
      = Done (tt, env')
          (mk_state (delete a (heap st')) (placements st')
             (trace (empty_state [Some 16])
                ++ (if 7 =? NULL then [] else [EvDestructor 7 100])
                ++ [EvDeallocate NULL; EvDeallocate a])).
Proof.
  eexists. eexists. eexists. split.
  - vm_compute. reflexivity.
  - eapply (capsule_released_then_collected 0 100 (Some "rcl_node_t"%string) 7
              (quiet [true]) (empty_state [Some 16])).
    + vm_compute. reflexivity.
    + reflexivity.
Defined.
